(** * Fredy: listing ingestion (ImmoScout provider), geocoding and notification dispatch

    A shallow embedding of
      - [src/lib/provider/immoscout.js] (getListings, parseSalutation,
        getListingInfo, nullOrEmpty, normalize, and the notification
        [send] that follows it),
      - [src/lib/services/geocoding/geocoding.js] (reverseGeocode,
        extractAddressComponents, getSuburb, and the stand-alone script
        with its own parseSalutation that follows it),
    together with the part of the JavaScript semantics these functions
    rely on: dynamically typed values, property access that throws on
    null and undefined, truthiness, strings as sequences of UTF-16 code
    units, and backtracking regular expressions with capture groups. *)

From Stdlib Require Import NArith ZArith List String Ascii Bool Lia.
From Stdlib Require Import Floats.SpecFloat.
From stdpp Require Import base option list gmap.

Set Warnings "-register-all".
Local Open Scope N_scope.

(* ===================================================================== *)
(** ** Strings and characters *)
(* ===================================================================== *)

(** A JavaScript string is a sequence of UTF-16 code units. *)
Abbreviation jsstring := (list N).

(** The code units of an ASCII literal of the source. *)
Definition js (s : string) : jsstring :=
  List.map N_of_ascii (list_ascii_of_string s).
Arguments js : simpl never.

(** [s] between double quotes *)
Definition quoted (s : jsstring) : jsstring := [34] ++ s ++ [34].

(** WhiteSpace and LineTerminator code points: what [String.prototype.trim]
    strips and what the class [\s] accepts. *)
Definition isWhiteSpace (c : N) : bool :=
  ((9 <=? c) && (c <=? 13)) || (c =? 32) || (c =? 160) || (c =? 5760)
  || ((8192 <=? c) && (c <=? 8202)) || (c =? 8232) || (c =? 8233)
  || (c =? 8239) || (c =? 8287) || (c =? 12288) || (c =? 65279).

(** The class [\w]: [A-Za-z0-9_]. *)
Definition isWordChar (c : N) : bool :=
  ((97 <=? c) && (c <=? 122)) || ((65 <=? c) && (c <=? 90))
  || ((48 <=? c) && (c <=? 57)) || (c =? 95).

Definition isLineTerminator (c : N) : bool :=
  (c =? 10) || (c =? 13) || (c =? 8232) || (c =? 8233).

(** The class [.] (no [s] flag). *)
Definition isDot (c : N) : bool := negb (isLineTerminator c).

(** Canonicalize of a case-insensitive, non-unicode RegExp.  A code unit of
    128 or more never canonicalizes to one below 128, so against the ASCII
    literals of the patterns in this file only the ASCII folding decides;
    code units outside [a-z] are left as they are. *)
Definition canonicalize (c : N) : N :=
  if (97 <=? c) && (c <=? 122) then c - 32 else c.

Definition char_eq (ignoreCase : bool) (lit c : N) : bool :=
  if ignoreCase then canonicalize lit =? canonicalize c else lit =? c.

Fixpoint trimStart (s : jsstring) : jsstring :=
  match s with
  | c :: s' => if isWhiteSpace c then trimStart s' else s
  | [] => []
  end.

Definition trimEnd (s : jsstring) : jsstring := rev (trimStart (rev s)).

(** [String.prototype.trim] *)
Definition trim (s : jsstring) : jsstring := trimEnd (trimStart s).

Fixpoint starts_with (p s : jsstring) : bool :=
  match p, s with
  | [], _ => true
  | a :: p', b :: s' => (a =? b) && starts_with p' s'
  | _ :: _, [] => false
  end.

(** [s.replace(pat, rep)] with a string pattern: the first occurrence of
    [pat] is replaced, the rest of [s] is kept.  (The replacement strings of
    the source hold no [$] pattern.) *)
Fixpoint replace_first (pat rep s : jsstring) : jsstring :=
  if starts_with pat s then rep ++ drop (length pat) s
  else match s with
       | c :: s' => c :: replace_first pat rep s'
       | [] => []
       end.

(* ===================================================================== *)
(** ** Regular expressions *)
(* ===================================================================== *)

(** The fragment of RegExp syntax the source uses.  Quantifiers are greedy
    and, as in every pattern of the source, apply to a character class. *)
Inductive regex : Type :=
| REps
| RChar (c : N)
| RClass (p : N -> bool)
| RSeq (r1 r2 : regex)
| RAlt (r1 r2 : regex)
| RStar (p : N -> bool)
| RPlus (p : N -> bool)
| ROpt (r : regex)
| RGroup (i : nat) (r : regex)
| RBol
| REol.

Declare Scope regex_scope.
Delimit Scope regex_scope with re.
Bind Scope regex_scope with regex.
Infix "⋅" := RSeq (at level 40, left associativity) : regex_scope.
Infix "∣" := RAlt (at level 50, left associativity) : regex_scope.

(** A literal string as a sequence of literal characters. *)
Fixpoint rlit (s : jsstring) : regex :=
  match s with
  | [] => REps
  | [c] => RChar c
  | c :: s' => RSeq (RChar c) (rlit s')
  end.

(** Capture groups that took part in the match, most recent first. *)
Abbreviation captures := (list (nat * jsstring)).

Fixpoint get_cap (i : nat) (caps : captures) : option jsstring :=
  match caps with
  | [] => None
  | (j, s) :: caps' => if Nat.eqb i j then Some s else get_cap i caps'
  end.

Section Matcher.
Context {A : Type}.
Variable ignoreCase : bool.
(** the whole subject string: [^] holds where nothing of it is consumed *)
Variable input : jsstring.

(** Greedy [p*]: consume while [p] holds, and give characters back one at
    a time when the continuation fails. *)
Fixpoint star_k (p : N -> bool) (s : jsstring) (k : jsstring -> option A)
  : option A :=
  match s with
  | c :: s' =>
      if p c then
        match star_k p s' k with
        | Some r => Some r
        | None => k s
        end
      else k s
  | [] => k s
  end.

(** Backtracking matcher in continuation-passing style: [rmatch r s caps k]
    matches [r] at the front of [s] and hands the rest of the subject and
    the captures to [k]; [None] makes the matcher try its next choice. *)
Fixpoint rmatch (r : regex) (s : jsstring) (caps : captures)
         (k : jsstring -> captures -> option A) : option A :=
  match r with
  | REps => k s caps
  | RChar c =>
      match s with
      | x :: s' => if char_eq ignoreCase c x then k s' caps else None
      | [] => None
      end
  | RClass p =>
      match s with
      | x :: s' => if p x then k s' caps else None
      | [] => None
      end
  | RSeq r1 r2 => rmatch r1 s caps (fun s' caps' => rmatch r2 s' caps' k)
  | RAlt r1 r2 =>
      match rmatch r1 s caps k with
      | Some res => Some res
      | None => rmatch r2 s caps k
      end
  | RStar p => star_k p s (fun s' => k s' caps)
  | RPlus p =>
      match s with
      | x :: s' => if p x then star_k p s' (fun s'' => k s'' caps) else None
      | [] => None
      end
  | ROpt r1 =>
      match rmatch r1 s caps k with
      | Some res => Some res
      | None => k s caps
      end
  | RGroup i r1 =>
      rmatch r1 s caps
        (fun s' caps' => k s' ((i, take (length s - length s') s) :: caps'))
  | RBol => if Nat.eqb (length s) (length input) then k s caps else None
  | REol => match s with [] => k s caps | _ :: _ => None end
  end.
End Matcher.

(** The result of a successful [exec]: where the match starts, the text
    before it, the matched text, the text after it, and the captures. *)
Record match_result : Type := MatchResult {
  m_before : jsstring;
  m_whole : jsstring;
  m_after : jsstring;
  m_caps : captures
}.

(** One attempt at a fixed start position. *)
Definition match_here (ic : bool) (r : regex) (input before s : jsstring)
  : option match_result :=
  rmatch ic input r s []
    (fun s' caps =>
       Some (MatchResult before (take (length s - length s') s) s' caps)).

(** [RegExp.prototype.exec] without the [g] and [y] flags: the leftmost
    start position that admits a match. *)
Fixpoint exec_from (ic : bool) (r : regex) (input before s : jsstring)
  : option match_result :=
  match match_here ic r input before s with
  | Some m => Some m
  | None =>
      match s with
      | [] => None
      | c :: s' => exec_from ic r input (before ++ [c]) s'
      end
  end.

Definition exec (ic : bool) (r : regex) (input : jsstring) : option match_result :=
  exec_from ic r input [] input.

(** [s.replace(re, rep)] for a RegExp without the [g] flag. *)
Definition replace_regex (ic : bool) (r : regex) (rep s : jsstring) : jsstring :=
  match exec ic r s with
  | Some m => m_before m ++ rep ++ m_after m
  | None => s
  end.

(* ===================================================================== *)
(** ** Values *)
(* ===================================================================== *)

(** Numbers are IEEE 754 binary64. *)
Abbreviation number := spec_float.

Definition number_of_Z (z : Z) : number :=
  binary_normalize 53 1024 z 0 false.

(** Values as the code meets them: primitives, and the arrays and objects
    of a parsed JSON document (an object as its list of entries, the first
    entry of a key being the one a property read finds). *)
Inductive value : Type :=
| VUndef
| VNull
| VBool (b : bool)
| VNum (n : number)
| VStr (s : jsstring)
| VArr (l : list value)
| VObj (fields : list (jsstring * value)).

Inductive jstype : Type :=
| TUndefined | TObject | TBoolean | TNumber | TString.

(** [typeof v] *)
Definition typeof (v : value) : jstype :=
  match v with
  | VUndef => TUndefined
  | VNull => TObject
  | VBool _ => TBoolean
  | VNum _ => TNumber
  | VStr _ => TString
  | VArr _ => TObject
  | VObj _ => TObject
  end.

Definition jstype_eqb (a b : jstype) : bool :=
  match a, b with
  | TUndefined, TUndefined | TObject, TObject | TBoolean, TBoolean
  | TNumber, TNumber | TString, TString => true
  | _, _ => false
  end.

(** ToBoolean *)
Definition truthy (v : value) : bool :=
  match v with
  | VUndef | VNull => false
  | VBool b => b
  | VNum (S754_zero _) | VNum S754_nan => false
  | VNum _ => true
  | VStr [] => false
  | VStr _ => true
  | VArr _ | VObj _ => true
  end.

(** [v == null] *)
Definition nullish (v : value) : bool :=
  match v with
  | VUndef | VNull => true
  | _ => false
  end.

(** [a || b] and [a && b] on values *)
Definition js_or (a b : value) : value := if truthy a then a else b.
Definition js_and (a b : value) : value := if truthy a then b else a.

(* ===================================================================== *)
(** ** ContactNameParser: parseSalutation *)
(* ===================================================================== *)

Inductive gender_t : Type := male | female.

(** [{ gender, lastName }]; [lastName] is whatever element of the match
    array the code picks. *)
Record Salutation : Type := mkSalutation {
  gender : gender_t;
  lastName : value
}.

(** The array [String.prototype.match] returns for a RegExp without the [g]
    flag: the matched text, then one entry per capture group, [undefined]
    for a group that took no part. *)
Definition match_array (ngroups : nat) (m : match_result) : list value :=
  VStr (m_whole m)
  :: List.map (fun i => match get_cap i (m_caps m) with
                        | Some s => VStr s
                        | None => VUndef
                        end) (seq 1 ngroups).

Definition str_match (ic : bool) (r : regex) (ngroups : nat) (s : jsstring)
  : option (list value) :=
  match_array ngroups <$> exec ic r s.

(** [a[i]] on a match array *)
Definition at_index (a : list value) (i : nat) : value := nth i a VUndef.

Notation "a .[ i ]" := (at_index a i) (at level 1, left associativity, format "a .[ i ]").

(** [\s(\w+)(?:\s(\w+))?$], the tail both patterns share *)
Definition nameTail : regex :=
  (RClass isWhiteSpace ⋅ RGroup 2 (RPlus isWordChar)
   ⋅ ROpt (RClass isWhiteSpace ⋅ RGroup 3 (RPlus isWordChar)) ⋅ REol)%re.

(** [/^(Mr\.|Herr)\s(\w+)(?:\s(\w+))?$/i] *)
Definition malePattern : regex :=
  (RBol ⋅ RGroup 1 (rlit (js "Mr.") ∣ rlit (js "Herr")) ⋅ nameTail)%re.

(** [/^(Ms\.|Mrs\.|Frau)\s(\w+)(?:\s(\w+))?$/i] *)
Definition femalePattern : regex :=
  (RBol ⋅ RGroup 1 (rlit (js "Ms.") ∣ rlit (js "Mrs.") ∣ rlit (js "Frau")) ⋅ nameTail)%re.


(* ===================================================================== *)
(** ** Exceptions, property access and conversions *)
(* ===================================================================== *)

(** What a [throw] or a rejected promise carries. *)
Inductive error : Type :=
| TypeError
| SyntaxError
| NetworkError
| PlainError (message : jsstring).

Inductive outcome (A : Type) : Type :=
| Return (a : A)
| Throw (e : error).
Arguments Return {A} a.
Arguments Throw {A} e.

#[global] Instance outcome_ret : MRet outcome := fun A a => Return a.
#[global] Instance outcome_bind : MBind outcome :=
  fun A B f m => match m with
                 | Return a => f a
                 | Throw e => Throw e
                 end.

Fixpoint assoc (key : jsstring) (fields : list (jsstring * value)) : option value :=
  match fields with
  | [] => None
  | (k, v) :: fields' => if bool_decide (k = key) then Some v else assoc key fields'
  end.

(** [v.key] for the property names the sources read: fixed identifiers, none
    of them an array index or a member of a built-in prototype, so a
    primitive, an array or a string has them only as [length]. *)
Definition get (v : value) (key : jsstring) : outcome value :=
  match v with
  | VUndef | VNull => Throw TypeError
  | VObj fields => Return (default VUndef (assoc key fields))
  | VArr l =>
      Return (if bool_decide (key = js "length")
              then VNum (number_of_Z (Z.of_nat (length l))) else VUndef)
  | VStr s =>
      Return (if bool_decide (key = js "length")
              then VNum (number_of_Z (Z.of_nat (length s))) else VUndef)
  | VBool _ | VNum _ => Return VUndef
  end.

(** [v?.key] *)
Definition opt_get (v : value) (key : jsstring) : outcome value :=
  if nullish v then Return VUndef else get v key.

(** [v === 'lit'] *)
Definition is_string (lit : jsstring) (v : value) : bool :=
  match v with
  | VStr s => bool_decide (s = lit)
  | _ => false
  end.

(** [v === 0] *)
Definition is_zero (v : value) : bool :=
  match v with
  | VNum (S754_zero _) => true
  | _ => false
  end.

(** [Array.prototype.find] with a callback that may throw *)
Fixpoint find_m (cb : value -> outcome bool) (l : list value) : outcome value :=
  match l with
  | [] => Return VUndef
  | x :: l' => b ← cb x; if (b : bool) then Return x else find_m cb l'
  end.

(** [Array.prototype.filter] with a callback that may throw *)
Fixpoint filter_m (cb : value -> outcome bool) (l : list value)
  : outcome (list value) :=
  match l with
  | [] => Return []
  | x :: l' =>
      b ← cb x; rest ← filter_m cb l';
      Return (if (b : bool) then x :: rest else rest)
  end.

(** [Array.prototype.map] with a callback that may throw *)
Fixpoint map_m {A B : Type} (cb : A -> outcome B) (l : list A) : outcome (list B) :=
  match l with
  | [] => Return []
  | x :: l' => y ← cb x; rest ← map_m cb l'; Return (y :: rest)
  end.

(** [v.find(cb)]: only an array has the method. *)
Definition call_find (v : value) (cb : value -> outcome bool) : outcome value :=
  match v with
  | VArr l => find_m cb l
  | _ => Throw TypeError
  end.

(** [v?.find(cb)] *)
Definition opt_call_find (v : value) (cb : value -> outcome bool) : outcome value :=
  if nullish v then Return VUndef else call_find v cb.

(** [v.filter(cb)] *)
Definition call_filter (v : value) (cb : value -> outcome bool)
  : outcome (list value) :=
  match v with
  | VArr l => filter_m cb l
  | _ => Throw TypeError
  end.

(** [v.replace(...)], [v.trim()]: only a string has the method; [f] is what
    the method computes. *)
Definition call_string_method (v : value) (f : jsstring -> jsstring) : outcome value :=
  match v with
  | VStr s => Return (VStr (f s))
  | _ => Throw TypeError
  end.

Definition isHighSurrogate (c : N) : bool := (55296 <=? c) && (c <=? 56319).
Definition isLowSurrogate (c : N) : bool := (56320 <=? c) && (c <=? 57343).

(** The string iterator: one code point at a time. *)
Definition next_code_point (s : jsstring) : option (jsstring * jsstring) :=
  match s with
  | [] => None
  | c :: d :: s' =>
      if isHighSurrogate c && isLowSurrogate d then Some ([c; d], s')
      else Some ([c], d :: s')
  | [c] => Some ([c], [])
  end.

(** [const [a, b] = v]: the first two items of an iterable, [undefined]
    where it runs out; a value that is not iterable throws. *)
Definition destructure2 (v : value) : outcome (value * value) :=
  match v with
  | VArr l => Return (nth 0 l VUndef, nth 1 l VUndef)
  | VStr s =>
      match next_code_point s with
      | None => Return (VUndef, VUndef)
      | Some (a, s') =>
          match next_code_point s' with
          | None => Return (VStr a, VUndef)
          | Some (b, _) => Return (VStr a, VStr b)
          end
      end
  | _ => Throw TypeError
  end.

(** What the sources take from their surroundings: the number-to-string
    conversion of the language, the network behind [fetch], and [buildHash]
    of [../utils.js], which [normalize] imports. *)
Inductive http_method : Type := GET | POST.

Record request : Type := mkRequest {
  req_url : jsstring;
  req_method : http_method;
  req_headers : list (jsstring * jsstring);
  req_body : option jsstring
}.

(** A response: [ok], [status], [statusText], and what [json()] resolves to
    ([Throw SyntaxError] for a body that is not JSON). *)
Record response : Type := mkResponse {
  resp_ok : bool;
  resp_status : Z;
  resp_statusText : jsstring;
  resp_json : outcome value
}.

Class Runtime : Type := {
  numberToString : number -> jsstring;
(** [None]: the request fails and the promise of [fetch] rejects *)
  network : request -> option response;
  buildHash : value -> value -> value
}.

(** Whether an object has a property of its own under [key]. *)
Definition has_own (key : jsstring) (fields : list (jsstring * value)) : bool :=
  match assoc key fields with
  | Some _ => true
  | None => false
  end.

Section Conversions.
Context `{Runtime}.

Fixpoint join (sep : jsstring) (parts : list jsstring) : jsstring :=
  match parts with
  | [] => []
  | [p] => p
  | p :: parts' => p ++ sep ++ join sep parts'
  end.

(** ToString.  A primitive has its text.  An array is joined with commas
    ([Array.prototype.toString]): its items are converted in turn, null and
    undefined giving the empty string.  An object of a parsed JSON document
    has no callable property of its own: one that has a [toString] of its
    own has no method that converts it (neither its [valueOf] nor the
    inherited one gives a primitive), and the conversion throws a
    TypeError; every other object inherits [Object.prototype.toString]. *)
Fixpoint ToString (v : value) : outcome jsstring :=
  match v with
  | VUndef => Return (js "undefined")
  | VNull => Return (js "null")
  | VBool true => Return (js "true")
  | VBool false => Return (js "false")
  | VNum n => Return (numberToString n)
  | VStr s => Return s
  | VArr l =>
      parts ← (fix items (l : list value) : outcome (list jsstring) :=
                 match l with
                 | [] => Return []
                 | x :: l' =>
                     part ← (if nullish x then Return [] else ToString x);
                     rest ← items l';
                     Return (part :: rest)
                 end) l;
      Return (join (js ",") parts)
  | VObj fields =>
      if has_own (js "toString") fields then Throw TypeError
      else Return (js "[object Object]")
  end.

Definition isDigit (c : N) : bool := (48 <=? c) && (c <=? 57).

Fixpoint digits_value (acc : Z) (s : jsstring) : Z :=
  match s with
  | c :: s' =>
      if isDigit c then digits_value (10 * acc + Z.of_N (c - 48))%Z s' else acc
  | [] => acc
  end.

(** [parseInt(v, 10)]: the argument is converted to a string (which can
    throw); leading white space is skipped, a sign is read, then the longest
    run of decimal digits; no digit gives [NaN]. *)
Definition parseInt10 (v : value) : outcome number :=
  inputString ← ToString v;
  let s := trimStart inputString in
  let '(neg, s1) :=
    match s with
    | 45 :: s' => (true, s')
    | 43 :: s' => (false, s')
    | _ => (false, s)
    end in
  Return
    match s1 with
    | c :: _ =>
        if isDigit c then
          let n := digits_value 0 s1 in
          if (n =? 0)%Z then S754_zero neg
          else number_of_Z (if neg then - n else n)%Z
        else S754_nan
    | [] => S754_nan
    end.
End Conversions.

(* ===================================================================== *)
(** ** Effects: the console and the network *)
(* ===================================================================== *)

(** An argument of [console.error] or [console.log]. *)
Inductive logged : Type :=
| LogStr (s : jsstring)
| LogValue (v : value)
| LogMessageOf (e : error).

(** What a run does that can be seen from outside, in order. *)
Inductive event : Type :=
| ConsoleError (args : list logged)
| ConsoleLog (args : list logged)
| Fetch (r : request).

(** An asynchronous function, awaited: it extends the trace of events and
    returns or throws. *)
Definition IO (A : Type) : Type := list event -> outcome A * list event.

#[global] Instance IO_ret : MRet IO := fun A a t => (Return a, t).
#[global] Instance IO_bind : MBind IO :=
  fun A B f m t => match m t with
                   | (Return a, t') => f a t'
                   | (Throw e, t') => (Throw e, t')
                   end.

Definition lift {A : Type} (o : outcome A) : IO A := fun t => (o, t).
Definition emit (ev : event) : IO unit := fun t => (Return tt, t ++ [ev]).
Definition console_error (args : list logged) : IO unit := emit (ConsoleError args).
Definition console_log (args : list logged) : IO unit := emit (ConsoleLog args).

(** [try { body } catch (error) { handler }] *)
Definition try_catch {A : Type} (body : IO A) (handler : error -> IO A) : IO A :=
  fun t => match body t with
           | (Return a, t') => (Return a, t')
           | (Throw e, t') => handler e t'
           end.

(** Run from the empty trace. *)
Definition run {A : Type} (m : IO A) : outcome A * list event := m [].

Definition is_fetch (ev : event) : bool :=
  match ev with
  | Fetch _ => true
  | _ => false
  end.

(** The requests a trace holds. *)
Definition network_calls (t : list event) : list event := List.filter is_fetch t.

Section Fetch.
Context `{Runtime}.

(** [await fetch(url, options)] *)
Definition fetch (r : request) : IO response :=
  fun t => match network r with
           | Some resp => (Return resp, t ++ [Fetch r])
           | None => (Throw NetworkError, t ++ [Fetch r])
           end.

(** [await response.json()] *)
Definition json (r : response) : IO value := lift (resp_json r).
End Fetch.

(* ===================================================================== *)
(** ** src/lib/services/geocoding/geocoding.js *)
(* ===================================================================== *)

Module Geocoding.
Section Geocoding.
Context `{Runtime}.

Definition NOMINATIM_BASE_URL : jsstring := js "https://nominatim.openstreetmap.org".

(** [pThrottle({ limit: 1, interval: 1000 })] *)
Definition throttle_limit : Z := 1.
Definition throttle_interval : Z := 1000.

Definition geocode_request (url : jsstring) : request :=
  {| req_url := url;
     req_method := GET;
     req_headers := [(js "User-Agent", js "Fredy-Real-Estate-Bot/1.0")];
     req_body := None |}.

(** [throttle(async (url) => fetch(url, ...))]: the wrapper of p-throttle
    delays the call and then makes it; what is modelled is the call. *)
Definition throttledFetch (url : jsstring) : IO response :=
  fetch (geocode_request url).

Record AddressComponents : Type := mkAddress {
  houseNumber : value;
  street : value;
  neighbourhood : value;
  suburb : value;
  borough : value;
  city : value;
  postcode : value;
  country : value;
  countryCode : value;
  displayName : value
}.

(** [address.key || null] *)
Definition field_or_null (address : value) (key : jsstring) : outcome value :=
  v ← get address key; Return (js_or v VNull).

Definition extractAddressComponents (geocodeResponse : value)
  : IO (option AddressComponents) :=
  address ← lift (opt_get geocodeResponse (js "address"));
  if negb (truthy address) then
    _ ← console_error [LogStr (js "Geocoding service: Address missing.")];
    mret None
  else
    _ ← console_log [LogValue geocodeResponse];
    lift (
      house_number ← field_or_null address (js "house_number");
      road ← field_or_null address (js "road");
      neighbourhood' ← field_or_null address (js "neighbourhood");
      suburb' ← field_or_null address (js "suburb");
      borough' ← field_or_null address (js "borough");
      city' ← get address (js "city");
      town ← get address (js "town");
      village ← get address (js "village");
      postcode' ← field_or_null address (js "postcode");
      country' ← field_or_null address (js "country");
      country_code ← field_or_null address (js "country_code");
      display_name ← get geocodeResponse (js "display_name");
      Return (Some {| houseNumber := house_number;
                      street := road;
                      neighbourhood := neighbourhood';
                      suburb := suburb';
                      borough := borough';
                      city := js_or (js_or (js_or city' town) village) VNull;
                      postcode := postcode';
                      country := country';
                      countryCode := country_code;
                      displayName := js_or display_name VNull |})).

(** [`${NOMINATIM_BASE_URL}/reverse?lat=${lat}&lon=${lon}&format=json`] *)
Definition reverse_url (lat lon : value) : outcome jsstring :=
  lat' ← ToString lat;
  lon' ← ToString lon;
  Return (NOMINATIM_BASE_URL ++ js "/reverse?lat=" ++ lat'
          ++ js "&lon=" ++ lon' ++ js "&format=json").

Definition reverseGeocode (lat lon : value) : IO (option AddressComponents) :=
  if nullish lat || nullish lon then
    _ ← console_error [LogStr (js "Geocoding service: Latitude and longitude are required.")];
    mret None
  else if negb (jstype_eqb (typeof lat) TNumber) || negb (jstype_eqb (typeof lon) TNumber) then
    _ ← console_error [LogStr (js "Geocoding service: Latitude and longitude must be numbers.")];
    mret None
  else
    url ← lift (reverse_url lat lon);
    try_catch
      (response ← throttledFetch url;
       if negb (resp_ok response) then
         _ ← console_error
               [LogStr (js "Geocoding service: HTTP error "
                        ++ numberToString (number_of_Z (resp_status response))
                        ++ js ": " ++ resp_statusText response)];
         mret None
       else
         data ← json response;
         err ← lift (get data (js "error"));
         if truthy err then
           _ ← console_error [LogStr (js "Geocoding service: API returned error:");
                              LogValue err];
           mret None
         else extractAddressComponents data)
      (fun error =>
         _ ← console_error [LogStr (js "Geocoding service: Request failed:");
                            LogMessageOf error];
         mret None).

(** [geocodeResult?.suburb || null] *)
Definition getSuburb (lat lon : value) : IO value :=
  geocodeResult ← reverseGeocode lat lon;
  mret (match geocodeResult with
        | None => VNull
        | Some a => js_or (suburb a) VNull
        end).
End Geocoding.
End Geocoding.

(* ===================================================================== *)
(** ** src/lib/provider/immoscout.js *)
(* ===================================================================== *)

(** An object the code builds and passes on by reference: its properties. *)
Abbreviation object := (gmap jsstring value).

(** The store of such objects; a reference is a key of it. *)
Abbreviation heap := (gmap nat (gmap jsstring value)).

(** [o.key] on an object of the store *)
Definition field (o : object) (key : jsstring) : value := default VUndef (o !! key).

Module Immoscout.
Section Immoscout.
Context `{Runtime}.

Definition defaultHeaders : list (jsstring * jsstring) :=
  [(js "User-Agent", js "ImmoScout24_1410_30_._");
   (js "Content-Type", js "application/json")].

Definition baseUrl : jsstring := js "https://www.immobilienscout24.de/".

(** [JSON.stringify({ supportedResultListTypes: [], userData: {} })] *)
Definition search_body : jsstring :=
  js "{" ++ quoted (js "supportedResultListTypes") ++ js ":[],"
  ++ quoted (js "userData") ++ js ":{}}".

(** [(x) => x.type === t] and [(attr) => attr.label === l] *)
Definition has_type (t : jsstring) (section : value) : outcome bool :=
  type ← get section (js "type"); Return (is_string t type).

Definition has_label (l : jsstring) (attr : value) : outcome bool :=
  label ← get attr (js "label"); Return (is_string l label).

Definition search_request (url : jsstring) : request :=
  {| req_url := url;
     req_method := POST;
     req_headers := defaultHeaders;
     req_body := Some search_body |}.

(** The callback of [map] in [getListings]. *)
Definition to_listing (expose : value) : outcome object :=
  item ← get expose (js "item");
  attributes ← get item (js "attributes");
  '(price, size) ← destructure2 attributes;
  id ← get item (js "id");
  price_value ← opt_get price (js "value");
  size_value ← opt_get size (js "value");
  title ← get item (js "title");
  id_text ← ToString id;
  address ← get item (js "address");
  line ← opt_get address (js "line");
  Return (list_to_map
            [(js "id", id);
             (js "price", price_value);
             (js "size", size_value);
             (js "title", title);
             (js "link", VStr (baseUrl ++ js "expose/" ++ id_text));
             (js "address", line)]).

Definition getListings (url : jsstring) : IO (list object) :=
  response ← fetch (search_request url);
  if negb (resp_ok response) then
    _ ← console_error
          [LogStr (js "Error fetching listings from ImmoScout Mobile API:");
           LogStr (resp_statusText response)];
    mret []
  else
    responseBody ← json response;
    lift (
      resultListItems ← get responseBody (js "resultListItems");
      exposes ← call_filter resultListItems (has_type (js "EXPOSE_RESULT"));
      map_m to_listing exposes).

(** [parseSalutation] of src/lib/provider/immoscout.js *)
Definition parseSalutation (name : value) : option Salutation :=
  if negb (truthy name) || negb (jstype_eqb (typeof name) TString) then None
  else
    match name with
    | VStr s =>
        let trimmedName := trim s in
        match str_match true malePattern 3 trimmedName with
        | Some maleMatch =>
            Some {| gender := male;
                    lastName :=
                      if truthy maleMatch.[1] && truthy maleMatch.[2]
                      then maleMatch.[2] else maleMatch.[1] |}
        | None =>
            match str_match true femalePattern 3 trimmedName with
            | Some femaleMatch =>
                Some {| gender := female;
                        lastName :=
                          if truthy femaleMatch.[1] && truthy femaleMatch.[2]
                          then femaleMatch.[2] else femaleMatch.[1] |}
            | None => None
            end
        end
    | _ => None
    end.

Record ListingInfo : Type := mkListingInfo {
  li_id : value;
  li_roomCount : value;
  li_suburb : value;
  li_salutation : option Salutation
}.

(** [`https://api.mobile.immobilienscout24.de/expose/${listingId}`] *)
Definition detail_url (listingId : value) : outcome jsstring :=
  id ← ToString listingId;
  Return (js "https://api.mobile.immobilienscout24.de/expose/" ++ id).

Definition detail_request (url : jsstring) : request :=
  {| req_url := url;
     req_method := GET;
     req_headers := defaultHeaders;
     req_body := None |}.

(** "Extract number of rooms from TOP_ATTRIBUTES section" *)
Definition extract_roomCount (responseBody : value) : outcome value :=
  sections ← get responseBody (js "sections");
  topAttributesSection ←
    opt_call_find sections (has_type (js "TOP_ATTRIBUTES"));
  if truthy topAttributesSection then
    attributes ← get topAttributesSection (js "attributes");
    roomsAttribute ←
      opt_call_find attributes (has_label (js "Zimmer"));
    if truthy roomsAttribute then
      text ← get roomsAttribute (js "text");
      n ← parseInt10 text;
      Return (VNum n)
    else Return VNull
  else Return VNull.

(** "Extract location (lat, lng) from MAP section" *)
Definition extract_suburb (responseBody : value) : IO value :=
  mapSection ← lift (
    sections ← get responseBody (js "sections");
    found ← opt_call_find sections (has_type (js "MAP"));
    opt_get found (js "location"));
  if truthy mapSection then
    lat ← lift (get mapSection (js "lat"));
    lng ← lift (get mapSection (js "lng"));
    Geocoding.getSuburb lat lng
  else mret VNull.

(** "Extract contact name from contact data" *)
Definition extract_salutation (responseBody : value) : outcome (option Salutation) :=
  contact ← get responseBody (js "contact");
  contactData ← opt_get contact (js "contactData");
  agent ← opt_get contactData (js "agent");
  name ← opt_get agent (js "name");
  if truthy name then Return (parseSalutation name) else Return None.

Definition getListingInfo (listingId : value) : IO (option ListingInfo) :=
  url ← lift (detail_url listingId);
  response ← fetch (detail_request url);
  if negb (resp_ok response) then
    _ ← console_error
          [LogStr (js "Error fetching listing from ImmoScout Mobile API:");
           LogStr (resp_statusText response)];
    mret None
  else
    responseBody ← json response;
    roomCount ← lift (extract_roomCount responseBody);
    suburb ← extract_suburb responseBody;
    salutation ← lift (extract_salutation responseBody);
    mret (Some {| li_id := listingId;
                  li_roomCount := roomCount;
                  li_suburb := suburb;
                  li_salutation := salutation |}).

Definition nullOrEmpty (val : value) : outcome bool :=
  if nullish val then Return true
  else len ← get val (js "length"); Return (is_zero len).

(** [/\(.*\),.*$/] *)
Definition addressPattern : regex :=
  (RChar 40 ⋅ RStar isDot ⋅ RChar 41 ⋅ RChar 44 ⋅ RStar isDot ⋅ REol)%re.

(** [nullOrEmpty(o.title) ? 'NO TITLE FOUND' : o.title.replace('NEU', '')] *)
Definition title_of (title : value) : outcome value :=
  no_title ← nullOrEmpty title;
  if (no_title : bool) then Return (VStr (js "NO TITLE FOUND"))
  else call_string_method title (replace_first (js "NEU") []).

(** [nullOrEmpty(o.address) ? 'NO ADDRESS FOUND'
       : (o.address || '').replace(/\(.*\),.*$/, '').trim()] *)
Definition address_of (address : value) : outcome value :=
  no_address ← nullOrEmpty address;
  if (no_address : bool) then Return (VStr (js "NO ADDRESS FOUND"))
  else
    replaced ← call_string_method (js_or address (VStr []))
                 (replace_regex false addressPattern []);
    call_string_method replaced trim.

(** The properties [normalize] computes, in the order the code computes
    them: [title], [address], [id]. *)
Definition normalized_fields (o : object) : outcome (value * value * value) :=
  title ← title_of (field o (js "title"));
  address ← address_of (field o (js "address"));
  let id := buildHash (field o (js "id")) (field o (js "price")) in
  Return (id, title, address).

(** [Object.assign(o, { id, title, address })] *)
Definition assign_fields (o : object) (id title address : value) : object :=
  <[js "address" := address]> (<[js "title" := title]> (<[js "id" := id]> o)).

(** [normalize(o)]: [o] is a reference; the object it names is updated in
    the store and the same reference is returned. *)
Definition normalize (o : nat) (h : heap) : outcome nat * heap :=
  match h !! o with
  | None => (Throw TypeError, h)
  | Some obj =>
      match normalized_fields obj with
      | Return (id, title, address) =>
          (Return o, <[o := assign_fields obj id title address]> h)
      | Throw e => (Throw e, h)
      end
  end.
End Immoscout.
End Immoscout.

(* ===================================================================== *)
(** ** The notification registry (the module after immoscout.js) *)
(* ===================================================================== *)

Module Notification.
Section Notification.
(** [Listing]: what [newListings] holds; [R]: what the [send] of an
    adapter returns (a promise). *)
Context {Listing R : Type}.

(** An entry of [notificationConfig]: its [id] and its own settings. *)
Record channel : Type := mkChannel {
  ch_id : jsstring;
  ch_settings : list (jsstring * value)
}.

(** [{ serviceName, newListings, notificationConfig, jobKey }] *)
Record payload : Type := mkPayload {
  serviceName : jsstring;
  newListings : list Listing;
  notificationConfig : list channel;
  jobKey : jsstring
}.

(** A module of [./adapter]: [config.id] and [send]. *)
Record adapter : Type := mkAdapter {
  config_id : jsstring;
  adapter_send : payload -> R
}.

(** The modules read from [./adapter] when the registry is loaded. *)
Variable adapters : list adapter.

(** "Please specify at least one notification provider" *)
Definition startup : outcome unit :=
  if Nat.eqb (length adapters) 0
  then Throw (PlainError (js "Please specify at least one notification provider"))
  else Return tt.

Definition findAdapter (notificationAdapter : channel) : option adapter :=
  List.find (fun a => bool_decide (config_id a = ch_id notificationAdapter)) adapters.

(** [a.send(...)] where [a] is what [findAdapter] gave *)
Definition call_send (p : payload) (a : option adapter) : outcome R :=
  match a with
  | Some a' => Return (adapter_send a' p)
  | None => Throw TypeError
  end.

Definition send (serviceName' : jsstring) (newListings' : list Listing)
           (notificationConfig' : list channel) (jobKey' : jsstring)
  : outcome (list R) :=
  map_m (call_send (mkPayload serviceName' newListings' notificationConfig' jobKey'))
    (List.map findAdapter
       (List.filter (fun notificationAdapter =>
                       match findAdapter notificationAdapter with
                       | Some _ => true
                       | None => false
                       end) notificationConfig')).
End Notification.
End Notification.

(* ===================================================================== *)
(** ** The stand-alone script (the module after geocoding.js) *)
(* ===================================================================== *)

Module Script.

Definition maleSalutations : list jsstring := [js "Mr."; js "Herr"].

(** [maleSalutations.map((salutation) => salutation.replace('.', '\\.')).join('|')] *)
Definition maleSluationsRegExpGroup : jsstring :=
  join (js "|") (List.map (replace_first (js ".") (js "\.")) maleSalutations).

(** The text handed to [new RegExp(..., 'i')]; it is the text of the literal
    [/^(Mr\.|Herr)\s(\w+)(?:\s(\w+))?$/i] (see [malePatternSource_text]),
    which [malePattern] renders. *)
Definition malePatternSource : jsstring :=
  js "^(" ++ maleSluationsRegExpGroup ++ js ")\s(\w+)(?:\s(\w+))?$".

Definition parseSalutation (name : value) : IO (option Salutation) :=
  if negb (truthy name) || negb (jstype_eqb (typeof name) TString) then mret None
  else
    match name with
    | VStr s =>
        let trimmedName := trim s in
        match str_match true malePattern 3 trimmedName with
        | Some maleMatch =>
            _ ← console_log [LogValue (VArr maleMatch)];
            mret (Some {| gender := male;
                          lastName :=
                            if truthy maleMatch.[2] && truthy maleMatch.[3]
                            then maleMatch.[3] else maleMatch.[2] |})
        | None =>
            match str_match true femalePattern 3 trimmedName with
            | Some femaleMatch =>
                mret (Some {| gender := female;
                              lastName :=
                                if truthy femaleMatch.[1] && truthy femaleMatch.[2]
                                then femaleMatch.[2] else femaleMatch.[1] |})
            | None => mret None
            end
        end
    | _ => mret None
    end.
End Script.

(* ===================================================================== *)
(** ** A runtime to run the functions on *)
(* ===================================================================== *)

(** 13.4 as a binary64 *)
Definition num_13_4 : number := S754_finite false 7543529375845581 (-49).

(** A geocoding answer with a suburb. *)
Definition sample_geocode_json : value :=
  VObj [(js "address", VObj [(js "suburb", VStr (js "Mitte"));
                             (js "city", VStr (js "Berlin"))]);
        (js "display_name", VStr (js "Mitte, Berlin"))].

(** A runtime whose network answers every request with [sample_geocode_json],
    that prints the numbers of the examples ([NaN], the infinities, zero,
    and every other one as [13.4]) and hashes by joining id and price. *)
Definition sample_numberToString (n : number) : jsstring :=
  match n with
  | S754_nan => js "NaN"
  | S754_infinity false => js "Infinity"
  | S754_infinity true => js "-Infinity"
  | S754_zero _ => js "0"
  | S754_finite _ _ _ => js "13.4"
  end.

Definition sample_runtime : Runtime := {|
  numberToString := sample_numberToString;
  network := fun _ => Some (mkResponse true 200 (js "OK") (Return sample_geocode_json));
  buildHash := fun id price =>
    match id, price with
    | VStr a, VStr b => VStr (a ++ js "," ++ b)
    | _, _ => VNull
    end
|}.

(** Two adapters, and a configuration that names one of them and one that
    does not exist. *)
Definition sample_adapters : list (@Notification.adapter nat jsstring) :=
  [Notification.mkAdapter (js "slack") (fun p => js "slack:" ++ Notification.jobKey p);
   Notification.mkAdapter (js "mailjet") (fun p => js "mailjet:" ++ Notification.jobKey p)].

Definition sample_channels : list Notification.channel :=
  [Notification.mkChannel (js "telegram") [];
   Notification.mkChannel (js "mailjet") [(js "receiver", VStr (js "a@b.c"))]].

(** What one configured entry contributes to a dispatch: the result of the
    [send] of the adapter found for it, if there is one. *)
Definition dispatched {Listing R : Type}
    (adapters : list (@Notification.adapter Listing R))
    (p : Notification.payload) (e : Notification.channel) : option R :=
  (fun a => Notification.adapter_send a p) <$> Notification.findAdapter adapters e.

(** A listing as [getListings] builds it, and a store that holds it and a
    second object. *)
Definition sample_listing : object :=
  list_to_map
    [(js "id", VStr (js "158382494"));
     (js "price", VStr (js "900"));
     (js "size", VStr (js "54"));
     (js "title", VStr (js "NEU Altbau in Mitte"));
     (js "link", VStr (js "https://www.immobilienscout24.de/expose/158382494"));
     (js "address", VStr (js "Torstr. 1 (Mitte), Berlin"))].

(** A listing with neither title nor address. *)
Definition bare_listing : object :=
  list_to_map
    [(js "id", VStr (js "7"));
     (js "price", VStr (js "1"));
     (js "title", VUndef);
     (js "address", VStr [])].

Definition sample_heap : heap := <[0%nat := sample_listing]> (<[1%nat := bare_listing]> ∅).

(** A title or an address as the listing source sends it: a string, or
    nothing. *)
Definition string_or_absent (v : value) : bool :=
  match v with
  | VUndef | VNull | VStr _ => true
  | _ => false
  end.

(** "absent or empty": what [nullOrEmpty] is asked about such a field *)
Definition absent_or_empty (v : value) : bool :=
  match v with
  | VUndef | VNull | VStr [] => true
  | _ => false
  end.

(** A runtime like [sample_runtime] whose network gives every request the
    same fate: an answer, or none. *)
Definition runtime_with (answer : option response) : Runtime := {|
  numberToString := sample_numberToString;
  network := fun _ => answer;
  buildHash := fun id price =>
    match id, price with
    | VStr a, VStr b => VStr (a ++ js "," ++ b)
    | _, _ => VNull
    end
|}.

(** "both coordinates must be finite numbers" *)
Definition is_finite_number (v : value) : bool :=
  match v with
  | VNum (S754_zero _) | VNum (S754_finite _ _ _) => true
  | _ => false
  end.

(** The guard of [reverseGeocode]: both coordinates are of type number. *)
Definition both_numbers (lat lon : value) : bool :=
  jstype_eqb (typeof lat) TNumber && jstype_eqb (typeof lon) TNumber.

(** An entry of [resultListItems] that [getListings] turns into a listing:
    its [type] is [EXPOSE_RESULT]. *)
Definition is_expose (entry : value) : bool :=
  match get entry (js "type") with
  | Return type => is_string (js "EXPOSE_RESULT") type
  | Throw _ => false
  end.

(** A value that has a text: no object with a [toString] of its own, and
    no array that holds one. *)
Fixpoint printable (v : value) : bool :=
  match v with
  | VArr l => forallb (fun x => nullish x || printable x) l
  | VObj fields => negb (has_own (js "toString") fields)
  | _ => true
  end.

(** The shape [getListings] expects of an entry: an object, and, where it
    is an [EXPOSE_RESULT], one whose [item] is an object with an array
    [attributes] and an [id] that has a text. *)
Definition expected_entry (entry : value) : bool :=
  match entry with
  | VObj _ =>
      if is_expose entry then
        match get entry (js "item") with
        | Return (VObj item) =>
            match assoc (js "attributes") item with
            | Some (VArr _) => printable (default VUndef (assoc (js "id") item))
            | _ => false
            end
        | _ => false
        end
      else true
  | _ => false
  end.

(** A search answer with a failure status, and one whose body has no
    [resultListItems]. *)
Definition unavailable_response : response :=
  mkResponse false 503 (js "Service Unavailable") (Throw SyntaxError).

Definition empty_object_response : response :=
  mkResponse true 200 (js "OK") (Return (VObj [])).

Definition search_url : jsstring :=
  js "https://api.mobile.immobilienscout24.de/search/list?pagenumber=1".


(** 52.5 as a binary64 *)
Definition num_52_5 : number := S754_finite false 7388718138654720 (-47).

(** The details of a listing whose number of rooms is not a number. *)
Definition sample_rooms_attribute : value :=
  VObj [(js "label", VStr (js "Zimmer")); (js "text", VStr (js "k.A."))].

Definition sample_attributes : list value :=
  [VObj [(js "label", VStr (js "Kaltmiete")); (js "text", VStr (js "900"))];
   sample_rooms_attribute].

Definition sample_top_section : value :=
  VObj [(js "type", VStr (js "TOP_ATTRIBUTES"));
        (js "attributes", VArr sample_attributes)].

Definition sample_sections : list value :=
  [sample_top_section;
   VObj [(js "type", VStr (js "MAP"));
         (js "location", VObj [(js "lat", VNum num_52_5); (js "lng", VNum num_13_4)])]].

Definition sample_detail_json : value :=
  VObj
    [(js "sections", VArr sample_sections);
     (js "contact",
      VObj [(js "contactData",
             VObj [(js "agent", VObj [(js "name", VStr (js "Herr Mustermann"))])])])].

Definition sample_detail_response : response :=
  mkResponse true 200 (js "OK") (Return sample_detail_json).

Definition sample_listingId : value := VStr (js "160521994").

(** A runtime whose network answers the listing source with
    [sample_detail_json] and the geocoding service with
    [sample_geocode_json]. *)
Definition detail_runtime : Runtime := {|
  numberToString := sample_numberToString;
  network := fun r =>
    if starts_with (js "https://api.mobile.immobilienscout24.de/") (req_url r)
    then Some sample_detail_response
    else Some (mkResponse true 200 (js "OK") (Return sample_geocode_json));
  buildHash := fun _ _ => VNull
|}.




(** The URL of the details of [sample_listingId]. *)
Definition sample_detail_url : jsstring :=
  js "https://api.mobile.immobilienscout24.de/expose/160521994".

(** *** What a pattern accepts

    [steps ic input r s caps s' caps']: [r] can consume the front of [s]
    and leave [s'], turning the captures [caps] into [caps'].  This is the
    reading of the pattern; [rmatch] is the search. *)
Fixpoint steps (ic : bool) (input : jsstring) (r : regex)
         (s : jsstring) (caps : captures) (s' : jsstring) (caps' : captures) : Prop :=
  match r with
  | REps => s' = s ∧ caps' = caps
  | RChar c => ∃ x, s = x :: s' ∧ char_eq ic c x = true ∧ caps' = caps
  | RClass p => ∃ x, s = x :: s' ∧ p x = true ∧ caps' = caps
  | RSeq r1 r2 =>
      ∃ mid capsm, steps ic input r1 s caps mid capsm
                   ∧ steps ic input r2 mid capsm s' caps'
  | RAlt r1 r2 => steps ic input r1 s caps s' caps' ∨ steps ic input r2 s caps s' caps'
  | RStar p => ∃ w, s = w ++ s' ∧ forallb p w = true ∧ caps' = caps
  | RPlus p => ∃ x w, s = x :: w ++ s' ∧ p x = true ∧ forallb p w = true ∧ caps' = caps
  | ROpt r1 => steps ic input r1 s caps s' caps' ∨ (s' = s ∧ caps' = caps)
  | RGroup i r1 =>
      ∃ caps1, steps ic input r1 s caps s' caps1
               ∧ caps' = (i, take (length s - length s') s) :: caps1
  | RBol => s' = s ∧ caps' = caps ∧ length s = length input
  | REol => s' = s ∧ caps' = caps ∧ s = []
  end.

(** *** The form of a salutation, in the words of the specification

    "two alternations of accepted honorific tokens, male set {Mr., Herr},
    female set {Ms., Mrs., Frau}, each followed by one or two
    whitespace-separated name tokens", the honorific in any case. *)

(** The tokens of a string: what lies between its white space characters. *)
Fixpoint split_ws (s : jsstring) : list jsstring :=
  match s with
  | [] => [[]]
  | c :: s' =>
      if isWhiteSpace c then [] :: split_ws s'
      else match split_ws s' with
           | tok :: toks => (c :: tok) :: toks
           | [] => [[c]]
           end
  end.

Definition same_ignoring_case (a b : jsstring) : bool :=
  bool_decide (List.map canonicalize a = List.map canonicalize b).

Definition male_honorifics : list jsstring := [js "Mr."; js "Herr"].
Definition female_honorifics : list jsstring := [js "Ms."; js "Mrs."; js "Frau"].

Definition honorific_in (honorifics : list jsstring) (tok : jsstring) : bool :=
  existsb (same_ignoring_case tok) honorifics.

Definition is_honorific (tok : jsstring) : bool :=
  honorific_in (male_honorifics ++ female_honorifics) tok.

Definition is_name_token (tok : jsstring) : bool :=
  match tok with
  | [] => false
  | _ :: _ => forallb isWordChar tok
  end.


(** Modelled from the spec: [buildHash] of [../utils.js], which [normalize]
    imports and which is not among the sources.  The specification takes
    the listing id to be "a stable hash derived from source-native id +
    price", "a pure function of (source-native-id, price)" under which "a
    price change yields a new id": a hash that tells any two pairs apart.
    It is modelled by the pair it is computed from. *)
Definition spec_buildHash (id price : value) : value := VArr [id; price].

(** A runtime with the hash of the specification in the place of its own. *)
Definition with_spec_buildHash (R : Runtime) : Runtime := {|
  numberToString := @numberToString R;
  network := @network R;
  buildHash := spec_buildHash
|}.

(** The [id] of the listing a run of [normalize] returns. *)
Definition assigned_id (result : outcome nat * heap) : option value :=
  match result with
  | (Return o, h) => h !! o ≫= (fun obj : object => obj !! js "id")
  | (Throw _, _) => None
  end.

(** [sample_listing] at another price, and a store with both. *)
Definition repriced_listing : object := <[js "price" := VStr (js "950")]> sample_listing.

Definition two_prices_heap : heap :=
  <[0%nat := sample_listing]> (<[1%nat := repriced_listing]> ∅).

(** A salutation taken apart: the honorific, a white space character, the
    first name token and, where there is one, a second white space
    character and name token. *)
Definition second_text (second : option (N * jsstring)) : jsstring :=
  match second with
  | Some (ws', t2) => ws' :: t2
  | None => []
  end.

Definition second_ok (second : option (N * jsstring)) : bool :=
  match second with
  | Some (ws', t2) => isWhiteSpace ws' && is_name_token t2
  | None => true
  end.

Definition salutation_text (h : jsstring) (ws : N) (t1 : jsstring)
    (second : option (N * jsstring)) : jsstring :=
  h ++ ws :: t1 ++ second_text second.

Definition salutation_parts (honorifics : list jsstring) (h : jsstring) (ws : N)
    (t1 : jsstring) (second : option (N * jsstring)) : bool :=
  honorific_in honorifics h && isWhiteSpace ws && is_name_token t1
  && second_ok second.

(** What the groups 2 and 3 capture on the name tokens. *)
Definition name_captures (t1 : jsstring) (second : option (N * jsstring))
    (caps : captures) : captures :=
  match second with
  | Some (_, t2) => (3%nat, t2) :: (2%nat, t1) :: caps
  | None => (2%nat, t1) :: caps
  end.

(** The match array of such a text: the text, the honorific, the first name
    token, and the second or [undefined]. *)
Definition salutation_match (h : jsstring) (ws : N) (t1 : jsstring)
    (second : option (N * jsstring)) : list value :=
  [VStr (salutation_text h ws t1 second); VStr h; VStr t1;
   match second with
   | Some (_, t2) => VStr t2
   | None => VUndef
   end].

(** The last name token of a salutation. *)
Definition final_token (t1 : jsstring) (second : option (N * jsstring)) : jsstring :=
  match second with
  | Some (_, t2) => t2
  | None => t1
  end.

(* ===================================================================== *)
(** ** Further vocabulary for the properties of the code *)
(* ===================================================================== *)

Definition is_console_error (ev : event) : bool :=
  match ev with
  | ConsoleError _ => true
  | _ => false
  end.

(** The lines a trace writes with [console.error]. *)
Definition console_errors (t : list event) : list event :=
  List.filter is_console_error t.

(** What [x || null] can be: null, or a truthy value. *)
Definition null_or_truthy (v : value) : bool :=
  match v with
  | VNull => true
  | _ => truthy v
  end.

(** A length a string or an array of the language can have: below 2^53. *)
Definition js_length (n : nat) : Prop := (Z.of_nat n < 2 ^ 53)%Z.

(** [pat] occurs in [s]. *)
Fixpoint occurs (pat s : jsstring) : bool :=
  starts_with pat s
  || match s with
     | [] => false
     | _ :: s' => occurs pat s'
     end.

(** Nothing to strip: [s] neither starts nor ends with white space. *)
Definition no_outer_space (s : jsstring) : bool :=
  match s with
  | [] => true
  | c :: _ => negb (isWhiteSpace c) && negb (isWhiteSpace (List.last s c))
  end.

(** The property names of a listing as [getListings] builds it. *)
Definition listing_keys : gset jsstring :=
  list_to_set [js "id"; js "price"; js "size"; js "title"; js "link"; js "address"].

(** The value of a run of decimal digits. *)
Definition decimal (ds : jsstring) : Z :=
  fold_left (fun acc c => 10 * acc + Z.of_N (c - 48))%Z ds 0%Z.

(** The end of a run of digits: the end of the text, or a character that
    is no digit. *)
Definition no_digit_ahead (rest : jsstring) : bool :=
  match rest with
  | [] => true
  | c :: _ => negb (isDigit c)
  end.

(** A search answer with an advertisement and one listing. *)
Definition sample_expose : value :=
  VObj [(js "type", VStr (js "EXPOSE_RESULT"));
        (js "item",
         VObj [(js "id", VStr (js "158382494"));
               (js "title", VStr (js "NEU Altbau in Mitte"));
               (js "attributes",
                VArr [VObj [(js "label", VStr []); (js "value", VStr (js "900"))];
                      VObj [(js "label", VStr []); (js "value", VStr (js "54"))]]);
               (js "address", VObj [(js "line", VStr (js "Torstr. 1 (Mitte), Berlin"))])])].

Definition sample_search_items : list value :=
  [VObj [(js "type", VStr (js "ADVERTISEMENT"))]; sample_expose].

Definition sample_search_json : value :=
  VObj [(js "resultListItems", VArr sample_search_items)].

Definition search_runtime : Runtime :=
  runtime_with (Some (mkResponse true 200 (js "OK") (Return sample_search_json))).

(** The details of a listing with two and a half rooms. *)
Definition half_rooms_attribute : value :=
  VObj [(js "label", VStr (js "Zimmer")); (js "text", VStr (js "2,5"))].

Definition half_rooms_section : value :=
  VObj [(js "type", VStr (js "TOP_ATTRIBUTES"));
        (js "attributes", VArr [half_rooms_attribute])].

Definition half_rooms_json : value :=
  VObj [(js "sections", VArr [half_rooms_section])].

(** A geocoding answer that carries an error. *)
Definition geocode_error_response : response :=
  mkResponse true 200 (js "OK")
    (Return (VObj [(js "error", VStr (js "Unable to geocode"))])).

(** Two adapters with one id, and a third. *)
Definition shadowed_adapters : list (@Notification.adapter nat jsstring) :=
  [Notification.mkAdapter (js "slack") (fun _ => js "first");
   Notification.mkAdapter (js "slack") (fun _ => js "second");
   Notification.mkAdapter (js "mailjet") (fun _ => js "third")].

(** [geocodeResponse?.address], [undefined] where there is none. *)
Definition response_address (geocodeResponse : value) : value :=
  match opt_get geocodeResponse (js "address") with
  | Return v => v
  | Throw _ => VUndef
  end.

(** [address.key || null] as a value *)
Definition address_field (address : value) (key : jsstring) : value :=
  match get address key with
  | Return v => js_or v VNull
  | Throw _ => VNull
  end.


(** A string or an array of a length the language allows. *)
Definition well_sized (v : value) : Prop :=
  match v with
  | VStr s => js_length (length s)
  | VArr l => js_length (length l)
  | _ => True
  end.

(** Null, undefined, or a value whose [length] is zero. *)
Definition counts_as_empty (v : value) : bool :=
  match v with
  | VUndef | VNull | VStr [] | VArr [] => true
  | VObj fields => is_zero (default VUndef (assoc (js "length") fields))
  | _ => false
  end.

Definition is_str (v : value) : bool :=
  match v with
  | VStr _ => true
  | _ => false
  end.

(** A title that [normalize] cannot handle: not empty and no string, so
    without a [replace]. *)
Definition bad_title (v : value) : bool := negb (counts_as_empty v) && negb (is_str v).

(** An address that [normalize] cannot handle: as for a title, and truthy
    (a falsy one is replaced by the empty string). *)
Definition bad_address (v : value) : bool := bad_title v && truthy v.

(** A text that starts with an opening parenthesis, has no line break and
    holds a closing parenthesis followed by a comma: what [/\(.*\),.*$/]
    matches from its first character on. *)
Definition parenthesis_tail (rest : jsstring) : bool :=
  match rest with
  | 40 :: rest' => forallb isDot rest' && occurs [41; 44] rest'
  | _ => false
  end.

(** [s] up to the first place from which on it is a [parenthesis_tail]. *)
Fixpoint cut_address (s : jsstring) : jsstring :=
  if parenthesis_tail s then []
  else match s with
       | [] => []
       | c :: s' => c :: cut_address s'
       end.

(** A listing whose title is a number. *)
Definition numeric_title_listing : object :=
  list_to_map
    [(js "id", VStr (js "7"));
     (js "price", VStr (js "1"));
     (js "title", VNum num_13_4);
     (js "address", VStr (js "Torstr. 1"))].

Definition numeric_title_heap : heap := <[0%nat := numeric_title_listing]> ∅.

(** The honorifics of a gender. *)
Definition honorifics_of (g : gender_t) : list jsstring :=
  match g with
  | male => male_honorifics
  | female => female_honorifics
  end.

(** A male honorific followed by two name tokens. *)
Definition male_with_two_names (s : jsstring) : bool :=
  match split_ws s with
  | [h; t1; t2] =>
      honorific_in male_honorifics h && is_name_token t1 && is_name_token t2
  | _ => false
  end.

(* ===================================================================== *)
(** * Properties *)
(* ===================================================================== *)

(** ** Notification dispatch *)

Section NotificationFacts.
Import Notification.
Context {Listing R : Type}.
Variable adapters : list (@adapter Listing R).

Lemma findAdapter_Some e a :
  findAdapter adapters e = Some a → a ∈ adapters ∧ config_id a = ch_id e.
Proof.
  unfold findAdapter. intros Hf. apply find_some in Hf as [Hin Hb].
  split; [by apply list_elem_of_In | by apply bool_decide_eq_true in Hb].
Qed.

Lemma findAdapter_None e :
  findAdapter adapters e = None ↔ ∀ a, a ∈ adapters → config_id a ≠ ch_id e.
Proof.
  unfold findAdapter. split.
  - intros Hf a Hin Heq. apply list_elem_of_In in Hin.
    pose proof (find_none _ _ Hf a Hin) as Hb. simpl in Hb.
    by apply bool_decide_eq_false in Hb.
  - intros Hall. induction adapters as [|a l IH]; [done|]. simpl.
    rewrite bool_decide_eq_false_2.
    + apply IH. intros a' Hin. apply Hall. by right.
    + apply Hall. by left.
Qed.

Lemma send_with_payload p cfg :
  map_m (call_send p)
    (List.map (findAdapter adapters)
       (List.filter (fun e => match findAdapter adapters e with
                              | Some _ => true
                              | None => false
                              end) cfg))
  = Return (omap (dispatched adapters p) cfg).
Proof.
  induction cfg as [|e cfg IH]; [done|].
  simpl. unfold dispatched at 1.
  destruct (findAdapter adapters e) as [a|] eqn:Hf; simpl.
  - rewrite Hf. simpl. rewrite IH. done.
  - apply IH.
Qed.
End NotificationFacts.

(** C7: [send] never fails on a configured entry that has no adapter: such
    an entry contributes nothing, and every entry whose id is the id of a
    discovered adapter has the [send] of the adapter found for it invoked
    with the payload, in the order of the configuration. *)
Theorem send_skips_unavailable_channels
    {Listing R : Type} (adapters : list (@Notification.adapter Listing R))
    (serviceName : jsstring) (newListings : list Listing)
    (notificationConfig : list Notification.channel) (jobKey : jsstring) :
  let p := Notification.mkPayload serviceName newListings notificationConfig jobKey in
  ∃ results,
    Notification.send adapters serviceName newListings notificationConfig jobKey
      = Return results
    ∧ results = omap (dispatched adapters p) notificationConfig
    ∧ (∀ before e after,
         notificationConfig = before ++ e :: after →
         (∀ a, a ∈ adapters → Notification.config_id a ≠ Notification.ch_id e) →
         results = omap (dispatched adapters p) before
                   ++ omap (dispatched adapters p) after)
    ∧ (∀ e a,
         e ∈ notificationConfig → a ∈ adapters →
         Notification.config_id a = Notification.ch_id e →
         ∃ a', Notification.findAdapter adapters e = Some a'
               ∧ Notification.config_id a' = Notification.ch_id e
               ∧ Notification.adapter_send a' p ∈ results).
Proof.
  intros p. exists (omap (dispatched adapters p) notificationConfig).
  split; [apply send_with_payload|]. split; [done|]. split.
  - intros before e after -> Hnone.
    apply findAdapter_None in Hnone.
    rewrite omap_app. simpl. unfold dispatched at 2. by rewrite Hnone.
  - intros e a He Ha Hid.
    destruct (Notification.findAdapter adapters e) as [a'|] eqn:Hf.
    + exists a'. split; [done|]. split; [by apply findAdapter_Some in Hf as [_ ?]|].
      apply list_elem_of_omap. exists e. split; [done|].
      unfold dispatched. by rewrite Hf.
    + exfalso. eapply findAdapter_None; eauto.
Qed.

Lemma send_skips_unavailable_channels_witness :
  Notification.send sample_adapters (js "immoscout") [1%nat; 2%nat] sample_channels (js "job-1")
  = Return [js "mailjet:job-1"].
Proof.
  destruct (send_skips_unavailable_channels sample_adapters (js "immoscout")
              [1%nat; 2%nat] sample_channels (js "job-1"))
    as (results & Hsend & Hres & Hskip & _).
  rewrite Hsend. f_equal. rewrite Hres. reflexivity.
Defined.

(** ** normalize *)

Ltac unfold_outcome :=
  unfold mbind, outcome_bind, mret, outcome_ret in *; simpl in *.

Ltac unfold_io :=
  unfold run, mbind, IO_bind, outcome_bind, mret, IO_ret, outcome_ret, lift,
    console_error, console_log, emit, try_catch, fetch, json in *;
  simpl in *.

(** Two different literals of the source are different strings. *)
Ltac js_neq := vm_compute; discriminate.

Ltac case_if :=
  match goal with
  | |- context [if ?b then _ else _] => destruct b eqn:?
  end.

Section NormalizeFacts.
Context `{Runtime}.
Import Immoscout.

Lemma title_of_returns_string v t :
  title_of v = Return t → ∃ s, t = VStr s.
Proof.
  unfold title_of, nullOrEmpty.
  destruct v; unfold_outcome; intros Ht;
    repeat match type of Ht with
           | context [if ?b then _ else _] => destruct b
           end; simplify_eq; eauto.
Qed.

Lemma address_of_returns_string v a :
  address_of v = Return a → ∃ s, a = VStr s.
Proof.
  unfold address_of, nullOrEmpty, js_or.
  destruct v; unfold_outcome; intros Ha;
    repeat match type of Ha with
           | context [if ?b then _ else _] => destruct b eqn:?
           | context [match ?n with S754_zero _ => _ | _ => _ end] => destruct n
           | context [match ?s with [] => _ | _ :: _ => _ end] => destruct s
           end; unfold_outcome; simplify_eq; eauto.
Qed.

Lemma title_of_string_or_absent v :
  string_or_absent v = true →
  ∃ s, title_of v = Return (VStr s)
       ∧ (absent_or_empty v = true → s = js "NO TITLE FOUND").
Proof.
  unfold title_of, nullOrEmpty.
  destruct v as [| | | |s| |]; try discriminate; intros _; unfold_outcome.
  - eauto.
  - eauto.
  - destruct s as [|c s]; unfold_outcome; [eauto|].
    case_if; unfold_outcome; eexists; (split; [done|discriminate]).
Qed.

Lemma address_of_string_or_absent v :
  string_or_absent v = true →
  ∃ s, address_of v = Return (VStr s)
       ∧ (absent_or_empty v = true → s = js "NO ADDRESS FOUND").
Proof.
  unfold address_of, nullOrEmpty.
  destruct v as [| | | |s| |]; try discriminate; intros _; unfold_outcome.
  - eauto.
  - eauto.
  - destruct s as [|c s]; unfold_outcome; [eauto|].
    case_if; unfold_outcome; eexists; (split; [done|discriminate]).
Qed.

Lemma normalized_fields_inv obj id title address :
  normalized_fields obj = Return (id, title, address) →
  id = buildHash (field obj (js "id")) (field obj (js "price"))
  ∧ title_of (field obj (js "title")) = Return title
  ∧ address_of (field obj (js "address")) = Return address.
Proof.
  unfold normalized_fields. unfold_outcome.
  destruct (title_of _) as [t|]; [|done].
  destruct (address_of _) as [a|]; [|done].
  intros; simplify_eq. done.
Qed.

Lemma normalize_inv o h o1 h1 obj :
  h !! o = Some obj →
  normalize o h = (Return o1, h1) →
  ∃ title address,
    title_of (field obj (js "title")) = Return title
    ∧ address_of (field obj (js "address")) = Return address
    ∧ o1 = o
    ∧ h1 = <[o := assign_fields obj
                    (buildHash (field obj (js "id")) (field obj (js "price")))
                    title address]> h.
Proof.
  unfold normalize. intros ->.
  destruct (normalized_fields obj) as [[[id t] a]|] eqn:Hf; [|done].
  apply normalized_fields_inv in Hf as (-> & Ht & Ha).
  intros; simplify_eq. exists t, a. done.
Qed.

Lemma normalize_returns o h obj title address :
  h !! o = Some obj →
  title_of (field obj (js "title")) = Return title →
  address_of (field obj (js "address")) = Return address →
  normalize o h
  = (Return o,
     <[o := assign_fields obj
              (buildHash (field obj (js "id")) (field obj (js "price")))
              title address]> h).
Proof.
  unfold normalize, normalized_fields. intros -> -> ->. done.
Qed.

Lemma assign_fields_id obj id title address :
  assign_fields obj id title address !! js "id" = Some id.
Proof.
  unfold assign_fields.
  rewrite !lookup_insert_ne by js_neq. apply lookup_insert_eq.
Qed.

Lemma assign_fields_title obj id title address :
  assign_fields obj id title address !! js "title" = Some title.
Proof.
  unfold assign_fields.
  rewrite lookup_insert_ne by js_neq. apply lookup_insert_eq.
Qed.

Lemma assign_fields_address obj id title address :
  assign_fields obj id title address !! js "address" = Some address.
Proof. unfold assign_fields. by rewrite lookup_insert_eq. Qed.

Lemma assign_fields_other obj id title address k :
  k ≠ js "id" → k ≠ js "title" → k ≠ js "address" →
  assign_fields obj id title address !! k = obj !! k.
Proof. intros. unfold assign_fields. by rewrite !lookup_insert_ne. Qed.

End NormalizeFacts.

(** C4: [normalize] never returns a listing whose title or address is null
    or undefined: whenever it returns, both fields are strings; and for a
    raw item whose title and address are strings or missing it does return,
    with the placeholder in the place of a missing or empty field. *)
Theorem normalize_title_address_never_null
    `{Runtime} (o : nat) (h : heap) (obj : object) :
  h !! o = Some obj →
  (∀ o1 h1,
     Immoscout.normalize o h = (Return o1, h1) →
     ∃ obj1 t a,
       h1 !! o1 = Some obj1
       ∧ obj1 !! js "title" = Some (VStr t)
       ∧ obj1 !! js "address" = Some (VStr a))
  ∧ (string_or_absent (field obj (js "title")) = true →
     string_or_absent (field obj (js "address")) = true →
     ∃ h1 obj1 t a,
       Immoscout.normalize o h = (Return o, h1)
       ∧ h1 !! o = Some obj1
       ∧ obj1 !! js "title" = Some (VStr t)
       ∧ obj1 !! js "address" = Some (VStr a)
       ∧ (absent_or_empty (field obj (js "title")) = true →
          t = js "NO TITLE FOUND")
       ∧ (absent_or_empty (field obj (js "address")) = true →
          a = js "NO ADDRESS FOUND")).
Proof.
  intros Hobj. split.
  - intros o1 h1 Hn.
    destruct (normalize_inv _ _ _ _ _ Hobj Hn) as (title & address & Ht & Ha & -> & ->).
    apply title_of_returns_string in Ht as [t ->].
    apply address_of_returns_string in Ha as [a ->].
    eexists _, t, a. rewrite lookup_insert_eq.
    split; [done|]. split; [apply assign_fields_title | apply assign_fields_address].
  - intros Htitle Haddress.
    destruct (title_of_string_or_absent _ Htitle) as (t & Ht & Hpt).
    destruct (address_of_string_or_absent _ Haddress) as (a & Ha & Hpa).
    eexists _, _, t, a.
    split; [by apply normalize_returns|].
    rewrite lookup_insert_eq. split; [done|].
    split; [apply assign_fields_title|]. split; [apply assign_fields_address|].
    done.
Qed.

Lemma normalize_title_address_never_null_witness :
  ∃ h1 obj1,
    @Immoscout.normalize sample_runtime 1%nat sample_heap = (Return 1%nat, h1)
    ∧ h1 !! 1%nat = Some obj1
    ∧ obj1 !! js "title" = Some (VStr (js "NO TITLE FOUND"))
    ∧ obj1 !! js "address" = Some (VStr (js "NO ADDRESS FOUND")).
Proof.
  assert (Hobj : sample_heap !! 1%nat = Some bare_listing) by reflexivity.
  destruct (@normalize_title_address_never_null sample_runtime 1%nat sample_heap
              bare_listing Hobj) as [_ Htotal].
  destruct (Htotal eq_refl eq_refl) as (h1 & obj1 & t & a & Hn & Hh & Ht & Ha & Hpt & Hpa).
  exists h1, obj1. rewrite <- (Hpt eq_refl), <- (Hpa eq_refl). done.
Defined.

(** C10: [normalize] updates the object its argument names and returns that
    same reference; the [id] property then holds the hash of the former id
    and the price, the former id is kept nowhere, and every property other
    than [id], [title] and [address], and every other object, is as before.
    A second [normalize] succeeds and hashes the hash: its [id] coincides
    with that of the first only where [buildHash] has a fixed point. *)
Theorem normalize_in_place
    `{Runtime} (o : nat) (h : heap) (obj : object) (o1 : nat) (h1 : heap) :
  h !! o = Some obj →
  Immoscout.normalize o h = (Return o1, h1) →
  let id0 := field obj (js "id") in
  let price := field obj (js "price") in
  o1 = o
  ∧ (∀ o', o' ≠ o → h1 !! o' = h !! o')
  ∧ ∃ obj1 title address,
      h1 !! o = Some obj1
      ∧ obj1 = <[js "address" := address]>
                 (<[js "title" := title]> (<[js "id" := buildHash id0 price]> obj))
      ∧ obj1 !! js "id" = Some (buildHash id0 price)
      ∧ (∀ k, k ≠ js "id" → k ≠ js "title" → k ≠ js "address" →
              obj1 !! k = obj !! k)
      ∧ ∃ h2 obj2,
          Immoscout.normalize o h1 = (Return o, h2)
          ∧ h2 !! o = Some obj2
          ∧ obj2 !! js "id" = Some (buildHash (buildHash id0 price) price)
          ∧ (obj2 !! js "id" = obj1 !! js "id"
             ↔ buildHash (buildHash id0 price) price = buildHash id0 price).
Proof.
  intros Hobj Hn id0 price.
  destruct (normalize_inv _ _ _ _ _ Hobj Hn) as (title & address & Ht & Ha & -> & ->).
  split; [done|]. split; [by intros o' Ho'; rewrite lookup_insert_ne|].
  exists (Immoscout.assign_fields obj (buildHash id0 price) title address), title, address.
  rewrite lookup_insert_eq. split; [done|]. split; [done|].
  split; [apply assign_fields_id|]. split; [by apply assign_fields_other|].
  apply title_of_returns_string in Ht as Hts. destruct Hts as [t ->].
  apply address_of_returns_string in Ha as Has. destruct Has as [a ->].
  set (obj1 := Immoscout.assign_fields obj (buildHash id0 price) (VStr t) (VStr a)).
  assert (Hf_id : field obj1 (js "id") = buildHash id0 price).
  { unfold field, obj1. by rewrite assign_fields_id. }
  assert (Hf_price : field obj1 (js "price") = price).
  { unfold field, obj1. by rewrite assign_fields_other by js_neq. }
  assert (Hf_title : field obj1 (js "title") = VStr t).
  { unfold field, obj1. by rewrite assign_fields_title. }
  assert (Hf_address : field obj1 (js "address") = VStr a).
  { unfold field, obj1. by rewrite assign_fields_address. }
  destruct (title_of_string_or_absent (VStr t) eq_refl) as (t2 & Ht2 & _).
  destruct (address_of_string_or_absent (VStr a) eq_refl) as (a2 & Ha2 & _).
  eexists _, _. split.
  - apply (normalize_returns o _ obj1 (VStr t2) (VStr a2));
      [apply lookup_insert_eq | by rewrite Hf_title | by rewrite Hf_address].
  - rewrite lookup_insert_eq. split; [done|].
    rewrite assign_fields_id.
    fold obj1. rewrite Hf_id, Hf_price. split; [done|].
    unfold obj1 at 1. rewrite assign_fields_id.
    split; [by intros [= ->] | by intros ->].
Qed.

Lemma normalize_in_place_witness :
  ∃ h1 h2 obj1 obj2,
    @Immoscout.normalize sample_runtime 0%nat sample_heap = (Return 0%nat, h1)
    ∧ h1 !! 1%nat = Some bare_listing
    ∧ h1 !! 0%nat = Some obj1
    ∧ obj1 !! js "id" = Some (VStr (js "158382494,900"))
    ∧ obj1 !! js "price" = Some (VStr (js "900"))
    ∧ @Immoscout.normalize sample_runtime 0%nat h1 = (Return 0%nat, h2)
    ∧ h2 !! 0%nat = Some obj2
    ∧ obj2 !! js "id" = Some (VStr (js "158382494,900,900")).
Proof.
  assert (Hobj : sample_heap !! 0%nat = Some sample_listing) by reflexivity.
  assert (Hn : @Immoscout.normalize sample_runtime 0%nat sample_heap
               = (Return 0%nat, (@Immoscout.normalize sample_runtime 0%nat sample_heap).2))
    by reflexivity.
  destruct (@normalize_in_place sample_runtime 0%nat sample_heap sample_listing
              0%nat _ Hobj Hn)
    as (_ & Hframe & obj1 & title & address & Hh1 & Hobj1 & Hid & Hkeep & h2 & obj2 & Hn2 & Hh2 & Hid2 & _).
  eexists _, h2, obj1, obj2.
  split; [exact Hn|]. split; [by rewrite Hframe|]. split; [exact Hh1|].
  split; [exact Hid|]. split; [by rewrite Hkeep by js_neq|].
  split; [exact Hn2|]. split; [exact Hh2|]. exact Hid2.
Defined.

(** ** reverseGeocode *)

Lemma network_calls_app t1 t2 :
  network_calls (t1 ++ t2) = network_calls t1 ++ network_calls t2.
Proof. unfold network_calls. apply List.filter_app. Qed.

Section GeocodingFacts.
Context `{Runtime}.
Import Geocoding.

(** [extractAddressComponents] writes one line to the console and returns. *)
Lemma extractAddressComponents_trace data t :
  ∃ r ev, extractAddressComponents data t = (Return r, t ++ [ev])
          ∧ is_fetch ev = false.
Proof.
  unfold extractAddressComponents, opt_get.
  destruct data as [| | | | |l|fields]; unfold_io; try by eauto.
  destruct (truthy (default VUndef (assoc (js "address") fields))) eqn:Htr;
    unfold_io; [|by eauto].
  destruct (default VUndef (assoc (js "address") fields)); try discriminate;
    unfold field_or_null; unfold_io; eauto.
Qed.


(** Past the guard, the first thing [reverseGeocode] does is its request,
    and it makes no other. *)
Lemma reverseGeocode_fetches lat lon :
  both_numbers lat lon = true →
  ∃ url,
    reverse_url lat lon = Return url
    ∧ network_calls (run (reverseGeocode lat lon)).2 = [Fetch (geocode_request url)].
Proof.
  unfold both_numbers, reverseGeocode. intros [Hlat Hlon]%andb_prop.
  destruct lat; try discriminate. destruct lon; try discriminate.
  eexists. split; [reflexivity|]. simpl.
  unfold throttledFetch. unfold_io.
  destruct (network _) as [resp|]; [|done].
  destruct (resp_ok resp); simpl; [|done].
  destruct (resp_json resp) as [data|]; [|done].
  destruct (get data (js "error")) as [err|]; [|done].
  destruct (truthy err); [done|].
  match goal with
  | |- context [extractAddressComponents data ?t] =>
      destruct (extractAddressComponents_trace data t) as (r & ev & -> & Hev)
  end.
  simpl. by rewrite Hev.
Qed.
End GeocodingFacts.

(** C5, as the code has it: where a coordinate is null, undefined or not of
    type number, [reverseGeocode] returns null and makes no network call;
    where both are of type number, finite or not, it makes its request. *)
Theorem reverseGeocode_rejects_non_numbers `{Runtime} (lat lon : value) :
  (both_numbers lat lon = false →
   (run (Geocoding.reverseGeocode lat lon)).1 = Return None
   ∧ network_calls (run (Geocoding.reverseGeocode lat lon)).2 = [])
  ∧ (both_numbers lat lon = true →
     ∃ url,
       Geocoding.reverse_url lat lon = Return url
       ∧ network_calls (run (Geocoding.reverseGeocode lat lon)).2
         = [Fetch (Geocoding.geocode_request url)]).
Proof.
  split; [|apply reverseGeocode_fetches].
  unfold both_numbers, Geocoding.reverseGeocode.
  destruct lat, lon; try discriminate; intros _; done.
Qed.

Lemma reverseGeocode_rejects_non_numbers_witness :
  ((run (@Geocoding.reverseGeocode sample_runtime VNull (VNum num_13_4))).1 = Return None
   ∧ network_calls (run (@Geocoding.reverseGeocode sample_runtime VNull (VNum num_13_4))).2 = [])
  ∧ ((run (@Geocoding.reverseGeocode sample_runtime (VStr (js "x")) (VNum num_13_4))).1 = Return None
     ∧ network_calls (run (@Geocoding.reverseGeocode sample_runtime (VStr (js "x")) (VNum num_13_4))).2 = []).
Proof.
  split.
  - apply (@reverseGeocode_rejects_non_numbers sample_runtime VNull (VNum num_13_4)).
    reflexivity.
  - apply (@reverseGeocode_rejects_non_numbers sample_runtime (VStr (js "x")) (VNum num_13_4)).
    reflexivity.
Defined.

(** C5, as it is worded, fails for NaN: it is not a finite number, and the
    request is made all the same. *)
Lemma reverseGeocode_NaN_makes_network_call :
  is_finite_number (VNum S754_nan) = false
  ∧ network_calls (run (@Geocoding.reverseGeocode sample_runtime (VNum S754_nan) (VNum num_13_4))).2
    = [Fetch (Geocoding.geocode_request
                (js "https://nominatim.openstreetmap.org/reverse?lat=NaN&lon=13.4&format=json"))].
Proof. split; vm_compute; reflexivity. Qed.

(** ** getListings *)

Lemma get_returns v key :
  nullish v = false → ∃ r, get v key = Return r.
Proof. destruct v; try discriminate; simpl; eauto. Qed.

Lemma opt_call_find_array l cb : opt_call_find (VArr l) cb = find_m cb l.
Proof. reflexivity. Qed.

Lemma opt_get_returns v key : ∃ r, opt_get v key = Return r.
Proof.
  unfold opt_get. destruct (nullish v) eqn:Hn; [eauto|by apply get_returns].
Qed.

Section ToStringFacts.
Context `{Runtime}.

Lemma ToString_items l :
  (fix items (l : list value) : outcome (list jsstring) :=
     match l with
     | [] => Return []
     | x :: l' =>
         part ← (if nullish x then Return [] else ToString x);
         rest ← items l';
         Return (part :: rest)
     end) l
  = map_m (fun x => if nullish x then Return [] else ToString x) l.
Proof. induction l as [|x l IH]; [done|]. by rewrite IH. Qed.

(** The text of an array: the texts of its items, joined. *)
Lemma ToString_array l :
  ToString (VArr l)
  = parts ← map_m (fun x => if nullish x then Return [] else ToString x) l;
    Return (join (js ",") parts).
Proof. cbn [ToString]. by rewrite ToString_items. Qed.

(** A value that has a text is converted without a throw. *)
Lemma ToString_printable v : printable v = true → ∃ text, ToString v = Return text.
Proof.
  revert v. fix IH 1. intros [| |b|n|s|l|fields] Hp; try (by eexists).
  - destruct b; by eexists.
  - rewrite ToString_array.
    assert (Hparts : ∃ parts,
              map_m (fun x => if nullish x then Return [] else ToString x) l
              = Return parts).
    { cbn [printable] in Hp. induction l as [|x l IHl]; [by eexists|].
      cbn [forallb] in Hp. apply andb_prop in Hp as [Hx Hl].
      destruct (IHl Hl) as [rest Hrest].
      cbn [map_m]. rewrite Hrest.
      destruct (nullish x) eqn:Hn; [by eexists|].
      destruct (IH x Hx) as [part ->]. by eexists. }
    destruct Hparts as [parts ->]. by eexists.
  - cbn [printable ToString] in *. apply negb_true_iff in Hp. rewrite Hp. by eexists.
Qed.

End ToStringFacts.

Section GetListingsFacts.
Context `{Runtime}.
Import Immoscout.

Lemma has_type_expected e :
  expected_entry e = true →
  has_type (js "EXPOSE_RESULT") e = Return (is_expose e).
Proof. destruct e; try discriminate. done. Qed.

Lemma filter_expected items :
  Forall (fun e => expected_entry e = true) items →
  filter_m (has_type (js "EXPOSE_RESULT")) items
  = Return (List.filter is_expose items).
Proof.
  induction 1 as [|e items He _ IH]; [done|].
  cbn [filter_m List.filter]. rewrite (has_type_expected e He), IH.
  unfold_outcome. by case_if.
Qed.

Lemma to_listing_expected e :
  expected_entry e = true → is_expose e = true →
  ∃ listing, to_listing e = Return listing.
Proof.
  unfold expected_entry. intros He Hx. rewrite Hx in He.
  destruct e as [| | | | | |fields]; try discriminate.
  unfold to_listing. unfold_outcome.
  destruct (default VUndef (assoc (js "item") fields)) as [| | | | | |item];
    try discriminate.
  unfold_outcome.
  destruct (assoc (js "attributes") item) as [[| | | | |attrs|]|]; try discriminate.
  unfold_outcome.
  destruct (opt_get_returns (nth 0 attrs VUndef) (js "value")) as [p ->].
  destruct (opt_get_returns (nth 1 attrs VUndef) (js "value")) as [z ->].
  destruct (ToString_printable _ He) as [text ->].
  destruct (opt_get_returns (default VUndef (assoc (js "address") item)) (js "line")) as [a ->].
  eauto.
Qed.

Lemma map_to_listing_expected items :
  Forall (fun e => expected_entry e = true) items →
  ∃ listings,
    map_m to_listing (List.filter is_expose items) = Return listings
    ∧ length listings = length (List.filter is_expose items).
Proof.
  induction 1 as [|e items He _ (listings & IH & Hlen)]; [by exists []|].
  simpl. destruct (is_expose e) eqn:Hx; [|eauto].
  destruct (to_listing_expected e He Hx) as [l Hl].
  exists (l :: listings). simpl. rewrite Hl. unfold_outcome. rewrite IH.
  by rewrite Hlen.
Qed.
End GetListingsFacts.

(** C3, as the code has it: on a failure status [getListings] logs the
    status text and returns the empty list; on a success status it reads
    the body as it is: entries of the expected shape give one listing per
    [EXPOSE_RESULT], and a body with no array under [resultListItems] makes
    it throw a [TypeError]. *)
Theorem getListings_failure_status_or_shape
    `{Runtime} (url : jsstring) (resp : response) :
  network (Immoscout.search_request url) = Some resp →
  (resp_ok resp = false →
   run (Immoscout.getListings url)
   = (Return [],
      [Fetch (Immoscout.search_request url);
       ConsoleError [LogStr (js "Error fetching listings from ImmoScout Mobile API:");
                     LogStr (resp_statusText resp)]]))
  ∧ (∀ body,
       resp_ok resp = true → resp_json resp = Return body →
       (∀ items,
          get body (js "resultListItems") = Return (VArr items) →
          Forall (fun e => expected_entry e = true) items →
          ∃ listings,
            run (Immoscout.getListings url)
            = (Return listings, [Fetch (Immoscout.search_request url)])
            ∧ length listings = length (List.filter is_expose items))
       ∧ ((∀ items, get body (js "resultListItems") ≠ Return (VArr items)) →
          run (Immoscout.getListings url)
          = (Throw TypeError, [Fetch (Immoscout.search_request url)]))).
Proof.
  intros Hnet. split.
  - intros Hok. unfold Immoscout.getListings. unfold_io.
    by rewrite Hnet, Hok.
  - intros body Hok Hjson. split.
    + intros items Hitems Hshape.
      destruct (map_to_listing_expected items Hshape) as (listings & Hmap & Hlen).
      exists listings. split; [|done].
      unfold Immoscout.getListings. unfold_io.
      rewrite Hnet, Hok, Hjson. simpl. rewrite Hitems. simpl.
      by rewrite (filter_expected items Hshape), Hmap.
    + intros Hnone.
      unfold Immoscout.getListings. unfold_io.
      rewrite Hnet, Hok, Hjson. simpl.
      destruct body as [| | | | | |fields]; simpl in *; try done.
      destruct (default VUndef (assoc (js "resultListItems") fields)) as [| | | | |items|];
        simpl; try done.
      by destruct (Hnone items).
Qed.

Lemma getListings_failure_status_or_shape_witness :
  run (@Immoscout.getListings (runtime_with (Some unavailable_response)) search_url)
  = (Return [],
     [Fetch (@Immoscout.search_request search_url);
      ConsoleError [LogStr (js "Error fetching listings from ImmoScout Mobile API:");
                    LogStr (js "Service Unavailable")]]).
Proof.
  apply (@getListings_failure_status_or_shape
           (runtime_with (Some unavailable_response)) search_url unavailable_response);
    reflexivity.
Defined.

(** C3, as it is worded, fails on a success answer whose body is the empty
    object: [resultListItems] is undefined and reading [filter] of it
    throws. *)
Lemma getListings_throws_on_malformed_body :
  (run (@Immoscout.getListings (runtime_with (Some empty_object_response)) search_url)).1
  = Throw TypeError.
Proof. vm_compute. reflexivity. Qed.

(** ** getListingInfo *)

Section ListingInfoFacts.
Context `{Runtime}.
Import Immoscout.





Lemma extract_roomCount_found body sections top attrs rooms text :
  get body (js "sections") = Return (VArr sections) →
  find_m (has_type (js "TOP_ATTRIBUTES")) sections = Return top →
  truthy top = true →
  get top (js "attributes") = Return (VArr attrs) →
  find_m (has_label (js "Zimmer")) attrs = Return rooms →
  truthy rooms = true →
  get rooms (js "text") = Return text →
  extract_roomCount body = (n ← parseInt10 text; Return (VNum n)).
Proof.
  intros Hsections Htop Htt Hattrs Hrooms Htr Htext. unfold extract_roomCount.
  unfold_outcome. rewrite Hsections. simpl.
  rewrite opt_call_find_array, Htop, Htt, Hattrs. simpl.
  by rewrite opt_call_find_array, Hrooms, Htr, Htext.
Qed.
End ListingInfoFacts.

Section ListingInfoSteps.
Context `{Runtime}.
Import Immoscout.

(** [getListingInfo] past the answer of the listing source: the three
    extractions in their order, the first throw ending the run. *)
Lemma getListingInfo_answered listingId url resp body :
  detail_url listingId = Return url →
  network (detail_request url) = Some resp →
  resp_ok resp = true →
  resp_json resp = Return body →
  run (getListingInfo listingId)
  = match extract_roomCount body with
    | Throw e => (Throw e, [Fetch (detail_request url)])
    | Return roomCount =>
        match extract_suburb body [Fetch (detail_request url)] with
        | (Throw e, t) => (Throw e, t)
        | (Return suburb, t) =>
            match extract_salutation body with
            | Throw e => (Throw e, t)
            | Return salutation =>
                (Return (Some {| li_id := listingId;
                                 li_roomCount := roomCount;
                                 li_suburb := suburb;
                                 li_salutation := salutation |}), t)
            end
        end
    end.
Proof.
  intros Hurl Hnet Hok Hjson.
  unfold getListingInfo, run, mbind, IO_bind, fetch, json, lift.
  rewrite Hurl, Hnet, Hok. cbn [negb app]. rewrite Hjson.
  destruct (extract_roomCount body) as [roomCount|]; [|done].
  destruct (extract_suburb body _) as [[suburb|] t]; [|done].
  by destruct (extract_salutation body).
Qed.
End ListingInfoSteps.

(** *** Two answers of the listing source *)

Section TwoRuntimes.
Variables R1 R2 : Runtime.
Hypothesis same_numbers : @numberToString R1 = @numberToString R2.
Hypothesis same_geocoding :
  ∀ url, @network R1 (Geocoding.geocode_request url)
         = @network R2 (Geocoding.geocode_request url).



End TwoRuntimes.




(** ** Regular expressions: the search and the reading agree *)

Section MatcherFacts.
Variable ic : bool.
Variable input : jsstring.

Lemma star_k_sound {A} p s (k : jsstring → option A) res :
  star_k p s k = Some res →
  ∃ w s', s = w ++ s' ∧ forallb p w = true ∧ k s' = Some res.
Proof.
  induction s as [|c s IH]; simpl.
  - intros Hk. by exists [], [].
  - destruct (p c) eqn:Hp.
    + destruct (star_k p s k) as [r|] eqn:Hs.
      * intros [= ->]. destruct (IH eq_refl) as (w & s' & -> & Hw & Hk).
        exists (c :: w), s'. simpl. by rewrite Hp, Hw.
      * intros Hk. by exists [], (c :: s).
    + intros Hk. by exists [], (c :: s).
Qed.

Lemma star_k_complete {A} p w s' (k : jsstring → option A) :
  forallb p w = true → is_Some (k s') → is_Some (star_k p (w ++ s') k).
Proof.
  intros Hw Hk. induction w as [|c w IH]; simpl.
  - destruct s' as [|c s']; [done|]. simpl.
    destruct (p c); [|done]. by destruct (star_k p s' k).
  - simpl in Hw. apply andb_prop in Hw as [-> Hw].
    destruct (star_k p (w ++ s') k) eqn:Hs; [done|].
    destruct (IH Hw) as [? ?]. congruence.
Qed.

(** The search finds only what the pattern accepts. *)
Lemma rmatch_sound {A} r s caps (k : jsstring → captures → option A) res :
  rmatch ic input r s caps k = Some res →
  ∃ s' caps', steps ic input r s caps s' caps' ∧ k s' caps' = Some res.
Proof.
  revert s caps k.
  induction r as [|c|p|r1 IH1 r2 IH2|r1 IH1 r2 IH2|p|p|r1 IH1|i r1 IH1| |];
    intros s caps k; simpl.
  - eauto.
  - destruct s as [|x s]; [done|]. destruct (char_eq ic c x) eqn:Hc; [|done].
    intros Hk. exists s, caps. eauto 7.
  - destruct s as [|x s]; [done|]. destruct (p x) eqn:Hp; [|done].
    intros Hk. exists s, caps. eauto 7.
  - intros (mid & caps1 & H1 & H2)%IH1.
    apply IH2 in H2 as (s' & caps' & H2 & Hk). eauto 8.
  - destruct (rmatch ic input r1 s caps k) as [r|] eqn:H1.
    + intros [= ->]. apply IH1 in H1 as (s' & caps' & H1 & Hk). eauto 7.
    + intros (s' & caps' & H2 & Hk)%IH2. eauto 7.
  - intros (w & s' & -> & Hw & Hk)%star_k_sound. eauto 8.
  - destruct s as [|x s]; [done|]. destruct (p x) eqn:Hp; [|done].
    intros (w & s' & -> & Hw & Hk)%star_k_sound. exists s', caps. eauto 10.
  - destruct (rmatch ic input r1 s caps k) as [r|] eqn:H1.
    + intros [= ->]. apply IH1 in H1 as (s' & caps' & H1 & Hk). eauto 7.
    + intros Hk. exists s, caps. eauto.
  - intros (s' & caps' & H1 & Hk)%IH1. eauto 7.
  - destruct (Nat.eqb_spec (length s) (length input)) as [Hlen|]; [|done].
    intros Hk. exists s, caps. eauto.
  - destruct s; [|done]. intros Hk. exists [], caps. eauto.
Qed.

(** The search finds a match wherever the pattern accepts one the
    continuation accepts. *)
Lemma rmatch_complete {A} r s caps s' caps' (k : jsstring → captures → option A) :
  steps ic input r s caps s' caps' →
  is_Some (k s' caps') →
  is_Some (rmatch ic input r s caps k).
Proof.
  revert s caps s' caps' k.
  induction r as [|c|p|r1 IH1 r2 IH2|r1 IH1 r2 IH2|p|p|r1 IH1|i r1 IH1| |];
    intros s caps s' caps' k; simpl.
  - by intros [-> ->].
  - intros (x & -> & Hc & ->). by rewrite Hc.
  - intros (x & -> & Hp & ->). by rewrite Hp.
  - intros (mid & capsm & H1 & H2) Hk. eapply IH1; [exact H1|]. by eapply IH2.
  - intros [H1|H2] Hk.
    + destruct (IH1 _ _ _ _ k H1 Hk) as [res ->]. done.
    + destruct (rmatch ic input r1 s caps k); [done|]. by eapply IH2.
  - intros (w & -> & Hw & ->) Hk. by apply star_k_complete.
  - intros (x & w & -> & Hp & Hw & ->) Hk. rewrite Hp. by apply star_k_complete.
  - intros [H1|[-> ->]] Hk.
    + destruct (IH1 _ _ _ _ k H1 Hk) as [res ->]. done.
    + by destruct (rmatch ic input r1 s caps k).
  - intros (caps1 & H1 & ->) Hk.
    by apply (IH1 _ _ s' caps1).
  - intros (-> & -> & Hlen) Hk. by rewrite Hlen, Nat.eqb_refl.
  - by intros (-> & -> & ->).
Qed.

Lemma match_here_sound r before s m :
  match_here ic r input before s = Some m →
  ∃ s' caps',
    steps ic input r s [] s' caps'
    ∧ m = MatchResult before (take (length s - length s') s) s' caps'.
Proof.
  unfold match_here. intros (s' & caps' & Hsteps & [= <-])%rmatch_sound. eauto.
Qed.

Lemma exec_from_sound r before s m :
  exec_from ic r input before s = Some m →
  ∃ before' s0,
    before ++ s = before' ++ s0 ∧ match_here ic r input before' s0 = Some m.
Proof.
  revert before. induction s as [|c s IH]; intros before; simpl.
  - destruct (match_here ic r input before []) as [m'|] eqn:Hm; [|done].
    intros [= ->]. eauto.
  - destruct (match_here ic r input before (c :: s)) as [m'|] eqn:Hm.
    + intros [= ->]. eauto.
    + intros (before' & s0 & Heq & Hm')%IH. exists before', s0.
      by rewrite <- Heq, <- app_assoc.
Qed.

(** Where [exec] succeeds, the pattern accepts at some position of the
    subject, and the result is read off there. *)
Lemma exec_sound r m :
  exec ic r input = Some m →
  ∃ before s0 s' caps',
    input = before ++ s0
    ∧ steps ic input r s0 [] s' caps'
    ∧ m = MatchResult before (take (length s0 - length s') s0) s' caps'.
Proof.
  unfold exec. intros (before & s0 & Heq & Hm)%exec_from_sound.
  apply match_here_sound in Hm as (s' & caps' & Hsteps & ->).
  exists before, s0, s', caps'. done.
Qed.

(** Where the pattern accepts the subject from its start, [exec] succeeds. *)
Lemma exec_complete r s' caps' :
  steps ic input r input [] s' caps' → is_Some (exec ic r input).
Proof.
  intros Hsteps. unfold exec.
  assert (Hhere : is_Some (match_here ic r input [] input)).
  { unfold match_here. by eapply rmatch_complete. }
  destruct Hhere as [m Hm]. destruct input; simpl; by rewrite Hm.
Qed.

Lemma steps_rlit lit s caps s' caps' :
  steps ic input (rlit lit) s caps s' caps' ↔
  ∃ h, s = h ++ s' ∧ caps' = caps
       ∧ Forall2 (fun c x => char_eq ic c x = true) lit h.
Proof.
  revert s. induction lit as [|c lit IH]; intros s.
  - simpl. split.
    + intros [-> ->]. by exists [].
    + intros (h & -> & -> & Hh). by inversion Hh.
  - destruct lit as [|c' lit].
    + simpl. split.
      * intros (x & -> & Hc & ->). exists [x]. by repeat constructor.
      * intros (h & -> & -> & Hh).
        inversion Hh as [|? x ? h' Hc Hrest]; subst. inversion Hrest; subst.
        by exists x.
    + change (rlit (c :: c' :: lit)) with (RSeq (RChar c) (rlit (c' :: lit))).
      cbn [steps]. split.
      * intros (mid & capsm & (x & -> & Hc & ->) & Hrest).
        apply IH in Hrest as (h & -> & -> & Hh).
        exists (x :: h). split; [done|]. split; [done|]. by constructor.
      * intros (h & -> & -> & Hh).
        inversion Hh as [|? x ? h' Hc Hrest]; subst.
        exists (h' ++ s'), caps. split; [by exists x|].
        apply IH. by exists h'.
Qed.
End MatcherFacts.

(** ** Tokens and honorifics *)

Ltac n_bool :=
  repeat rewrite ?orb_true_iff, ?orb_false_iff, ?andb_true_iff, ?andb_false_iff,
    ?N.leb_le, ?N.leb_gt, ?N.eqb_eq, ?N.eqb_neq in *;
  lia.

Lemma word_not_space c : isWordChar c = true → isWhiteSpace c = false.
Proof. unfold isWordChar, isWhiteSpace. n_bool. Qed.

Lemma lower_not_space c :
  (97 <=? c) && (c <=? 122) = true → isWhiteSpace c = false.
Proof. unfold isWhiteSpace. n_bool. Qed.

Lemma char_eq_not_space c x :
  char_eq true c x = true →
  isWhiteSpace (canonicalize c) = false → isWhiteSpace x = false.
Proof.
  unfold char_eq. intros Heq%N.eqb_eq Hc. rewrite Heq in Hc.
  unfold canonicalize in Hc.
  destruct ((97 <=? x) && (x <=? 122)) eqn:Hx; [by apply lower_not_space|done].
Qed.

(** A string with no white space in it is one token. *)
Lemma split_ws_token t :
  forallb (fun c => negb (isWhiteSpace c)) t = true → split_ws t = [t].
Proof.
  induction t as [|c t IH]; [done|]. simpl.
  intros [Hc Ht]%andb_prop. apply negb_true_iff in Hc. by rewrite Hc, IH.
Qed.

Lemma split_ws_app t c rest :
  forallb (fun c => negb (isWhiteSpace c)) t = true →
  isWhiteSpace c = true →
  split_ws (t ++ c :: rest) = t :: split_ws rest.
Proof.
  intros Ht Hc. induction t as [|x t IH]; simpl.
  - by rewrite Hc.
  - simpl in Ht. apply andb_prop in Ht as [Hx Ht]. apply negb_true_iff in Hx.
    by rewrite Hx, (IH Ht).
Qed.

Lemma name_token_no_space t :
  is_name_token t = true → forallb (fun c => negb (isWhiteSpace c)) t = true.
Proof.
  destruct t as [|c t]; [done|]. unfold is_name_token.
  rewrite !forallb_forall. intros Hw x Hx.
  by rewrite (word_not_space x (Hw x Hx)).
Qed.

Lemma same_ignoring_case_Forall2 h lit :
  same_ignoring_case h lit = true ↔
  Forall2 (fun c x => char_eq true c x = true) lit h.
Proof.
  unfold same_ignoring_case. rewrite bool_decide_eq_true.
  revert h. induction lit as [|c lit IH]; intros [|x h]; simpl.
  - split; [constructor|done].
  - split; [done|inversion 1].
  - split; [done|inversion 1].
  - split.
    + intros [= Hx Hrest]. constructor; [|by apply IH].
      unfold char_eq. apply N.eqb_eq. done.
    + inversion 1 as [|? ? ? ? Hc Hrest]; subst.
      unfold char_eq in Hc. apply N.eqb_eq in Hc. f_equal; [done|by apply IH].
Qed.

Lemma literal_no_space lit h :
  Forall2 (fun c x => char_eq true c x = true) lit h →
  forallb (fun c => negb (isWhiteSpace (canonicalize c))) lit = true →
  forallb (fun c => negb (isWhiteSpace c)) h = true.
Proof.
  induction 1 as [|c x lit h Hc _ IH]; [done|]. simpl.
  intros [Hlit Hrest]%andb_prop. apply negb_true_iff in Hlit.
  by rewrite (char_eq_not_space c x Hc Hlit), (IH Hrest).
Qed.

(** An honorific, in whatever case, holds no white space and is not empty. *)
Lemma is_honorific_no_space h :
  is_honorific h = true →
  forallb (fun c => negb (isWhiteSpace c)) h = true ∧ h ≠ [].
Proof.
  unfold is_honorific, honorific_in. intros (lit & Hlit & Hsame)%existsb_exists.
  apply same_ignoring_case_Forall2 in Hsame.
  assert (Hok : forallb (fun c => negb (isWhiteSpace (canonicalize c))) lit = true
                ∧ lit ≠ []).
  { unfold male_honorifics, female_honorifics in Hlit. simpl in Hlit.
    destruct Hlit as [<-|[<-|[<-|[<-|[<-|[]]]]]]; by split. }
  destruct Hok as [Hns Hne]. split; [by eapply literal_no_space|].
  intros ->. inversion Hsame. by subst.
Qed.

Lemma honorific_in_is_honorific hs h :
  hs = male_honorifics ∨ hs = female_honorifics →
  honorific_in hs h = true → is_honorific h = true.
Proof.
  unfold is_honorific, honorific_in. rewrite existsb_app.
  intros [->| ->] ->; [done|by rewrite orb_true_r].
Qed.

(** No honorific is both male and female. *)
Lemma honorifics_disjoint h :
  honorific_in male_honorifics h = true →
  honorific_in female_honorifics h = true → False.
Proof.
  unfold honorific_in, same_ignoring_case. simpl.
  repeat case_bool_decide; try done;
    repeat match goal with
           | H1 : List.map canonicalize h = _, H2 : List.map canonicalize h = _ |- _ =>
               rewrite H1 in H2; vm_compute in H2; discriminate H2
           end.
Qed.

(** The tokens of a salutation are its parts, and no others. *)
Lemma split_ws_salutation h ws t1 second :
  is_honorific h = true → isWhiteSpace ws = true →
  is_name_token t1 = true → second_ok second = true →
  split_ws (salutation_text h ws t1 second)
  = h :: t1 :: match second with
               | Some (_, t2) => [t2]
               | None => []
               end.
Proof.
  intros [Hh _]%is_honorific_no_space Hws Ht1%name_token_no_space Hsecond.
  unfold salutation_text. rewrite (split_ws_app h ws _ Hh Hws). f_equal.
  destruct second as [[ws' t2]|]; simpl in *.
  - apply andb_prop in Hsecond as [Hws' Ht2%name_token_no_space].
    by rewrite (split_ws_app t1 ws' t2 Ht1 Hws'), (split_ws_token t2 Ht2).
  - rewrite app_nil_r. by apply split_ws_token.
Qed.

Lemma salutation_parts_inv hs h ws t1 second :
  salutation_parts hs h ws t1 second = true →
  honorific_in hs h = true ∧ isWhiteSpace ws = true
  ∧ is_name_token t1 = true ∧ second_ok second = true.
Proof.
  unfold salutation_parts. by intros [[[? ?]%andb_prop ?]%andb_prop ?]%andb_prop.
Qed.

Lemma take_consumed (w rest : jsstring) :
  take (length (w ++ rest) - length rest) (w ++ rest) = w.
Proof.
  rewrite length_app.
  replace (length w + length rest - length rest)%nat with (length w) by lia.
  apply take_app_length.
Qed.

(** ** The two patterns *)

Lemma plus_word_steps input s caps s' caps' :
  steps true input (RPlus isWordChar) s caps s' caps' ↔
  ∃ t, is_name_token t = true ∧ s = t ++ s' ∧ caps' = caps.
Proof.
  simpl. split.
  - intros (x & w & -> & Hx & Hw & ->). exists (x :: w).
    split; [by simpl; rewrite Hx|done].
  - intros ([|x w] & Ht & -> & ->); [done|]. simpl in Ht.
    apply andb_prop in Ht as [Hx Hw]. by exists x, w.
Qed.

(** What [\s(\w+)(?:\s(\w+))?$] accepts: one or two name tokens, each after
    one white space character, up to the end; the groups 2 and 3 hold them. *)
Lemma nameTail_steps input s caps s' caps' :
  steps true input nameTail s caps s' caps' ↔
  ∃ ws t1 second,
    isWhiteSpace ws = true ∧ is_name_token t1 = true ∧ second_ok second = true
    ∧ s = ws :: t1 ++ second_text second
    ∧ s' = [] ∧ caps' = name_captures t1 second caps.
Proof.
  unfold nameTail. cbn [steps]. split.
  - intros (mid3 & caps3 & (mid2 & caps2 & (mid1 & caps1 & (ws & -> & Hws & ->)
            & (caps1' & Hplus1 & ->)) & Hopt) & (-> & -> & ->)).
    apply (plus_word_steps input) in Hplus1 as (t1 & Ht1 & -> & ->).
    rewrite take_consumed in Hopt.
    destruct Hopt as [(m & capsm & (ws' & -> & Hws' & ->) & (caps2' & Hplus2 & ->))
                     |[<- ->]].
    + apply (plus_word_steps input) in Hplus2 as (t2 & Ht2 & -> & ->).
      rewrite take_consumed, app_nil_r.
      exists ws, t1, (Some (ws', t2)). simpl. by rewrite Hws', Ht2.
    + exists ws, t1, None. done.
  - intros (ws & t1 & second & Hws & Ht1 & Hsecond & -> & -> & ->).
    exists [], (name_captures t1 second caps). split; [|done].
    exists (second_text second), ((2%nat, t1) :: caps). split.
    + exists (t1 ++ second_text second), caps. split; [by exists ws|].
      exists caps. split; [by apply (plus_word_steps input); exists t1|].
      by rewrite take_consumed.
    + destruct second as [[ws' t2]|]; simpl in *; [left|by right].
      apply andb_prop in Hsecond as [Hws' Ht2].
      exists t2, ((2%nat, t1) :: caps). split; [by exists ws'|].
      exists ((2%nat, t1) :: caps). split.
      * apply (plus_word_steps input). exists t2. by rewrite app_nil_r.
      * rewrite <- (app_nil_r t2) at 2 3. by rewrite take_consumed.
Qed.

(** What [^(a|b|...)\s(\w+)(?:\s(\w+))?$] accepts, given what its
    alternation of honorifics accepts. *)
Lemma salutation_pattern_steps input alts honorifics s caps s' caps' :
  (∀ s caps s' caps',
     steps true input alts s caps s' caps' ↔
     ∃ h, s = h ++ s' ∧ caps' = caps ∧ honorific_in honorifics h = true) →
  steps true input (RBol ⋅ RGroup 1 alts ⋅ nameTail) s caps s' caps' ↔
  ∃ h ws t1 second,
    salutation_parts honorifics h ws t1 second = true
    ∧ s = salutation_text h ws t1 second
    ∧ length s = length input
    ∧ s' = [] ∧ caps' = name_captures t1 second ((1%nat, h) :: caps).
Proof.
  intros Halts. cbn [steps]. split.
  - intros (mid & capsm & (mid0 & caps0 & (-> & -> & Hlen) & (caps1 & Hhon & ->))
            & Htail).
    apply Halts in Hhon as (h & -> & -> & Hh).
    rewrite take_consumed in Htail.
    apply nameTail_steps in Htail
      as (ws & t1 & second & Hws & Ht1 & Hsecond & -> & -> & ->).
    exists h, ws, t1, second. unfold salutation_parts.
    rewrite Hh, Hws, Ht1, Hsecond. repeat split. exact Hlen.
  - intros (h & ws & t1 & second
            & (Hh & Hws & Ht1 & Hsecond)%salutation_parts_inv & -> & Hlen & -> & ->).
    exists (ws :: t1 ++ second_text second), ((1%nat, h) :: caps). split.
    + exists (salutation_text h ws t1 second), caps. split; [done|].
      exists caps. split; [apply Halts; by exists h|].
      unfold salutation_text. by rewrite take_consumed.
    + apply nameTail_steps. by exists ws, t1, second.
Qed.

Lemma male_alternation_steps input s caps s' caps' :
  steps true input (rlit (js "Mr.") ∣ rlit (js "Herr")) s caps s' caps' ↔
  ∃ h, s = h ++ s' ∧ caps' = caps ∧ honorific_in male_honorifics h = true.
Proof.
  cbn [steps]. rewrite !steps_rlit. unfold honorific_in, male_honorifics.
  split.
  - intros [(h & ? & ? & Hh)|(h & ? & ? & Hh)];
      apply same_ignoring_case_Forall2 in Hh;
      exists h; (split; [done|]); (split; [done|]);
      cbn [existsb]; rewrite Hh; by rewrite ?orb_true_r.
  - intros (h & ? & ? & Hh). cbn [existsb] in Hh.
    apply orb_true_iff in Hh as [Hh|Hh]; [left|right; rewrite orb_false_r in Hh];
      apply same_ignoring_case_Forall2 in Hh; by exists h.
Qed.

Lemma female_alternation_steps input s caps s' caps' :
  steps true input (rlit (js "Ms.") ∣ rlit (js "Mrs.") ∣ rlit (js "Frau"))
    s caps s' caps' ↔
  ∃ h, s = h ++ s' ∧ caps' = caps ∧ honorific_in female_honorifics h = true.
Proof.
  cbn [steps]. rewrite !steps_rlit. unfold honorific_in, female_honorifics.
  split.
  - intros [[(h & ? & ? & Hh)|(h & ? & ? & Hh)]|(h & ? & ? & Hh)];
      apply same_ignoring_case_Forall2 in Hh;
      exists h; (split; [done|]); (split; [done|]);
      cbn [existsb]; rewrite Hh; by rewrite ?orb_true_r.
  - intros (h & ? & ? & Hh). cbn [existsb] in Hh.
    apply orb_true_iff in Hh as [Hh|Hh]; [left; left|].
    { apply same_ignoring_case_Forall2 in Hh. by exists h. }
    apply orb_true_iff in Hh as [Hh|Hh]; [left; right|right; rewrite orb_false_r in Hh];
      apply same_ignoring_case_Forall2 in Hh; by exists h.
Qed.

Lemma anchored_at_start (input before s0 : jsstring) :
  input = before ++ s0 → length s0 = length input → before = [] ∧ s0 = input.
Proof.
  intros -> Hlen. rewrite length_app in Hlen.
  destruct before; [done|]. simpl in Hlen. lia.
Qed.

Lemma match_array_salutation before h ws t1 second :
  match_array 3
    (MatchResult before
       (take (length (salutation_text h ws t1 second) - length (@nil N))
          (salutation_text h ws t1 second))
       [] (name_captures t1 second [(1%nat, h)]))
  = salutation_match h ws t1 second.
Proof.
  unfold match_array, salutation_match. cbn [m_whole m_caps length].
  rewrite Nat.sub_0_r, firstn_all. by destruct second as [[ws' t2]|].
Qed.

Section SalutationPattern.
Variable alts : regex.
Variable honorifics : list jsstring.
Hypothesis honorifics_known :
  honorifics = male_honorifics ∨ honorifics = female_honorifics.
Hypothesis alts_steps :
  ∀ input s caps s' caps',
    steps true input alts s caps s' caps' ↔
    ∃ h, s = h ++ s' ∧ caps' = caps ∧ honorific_in honorifics h = true.

(** A match of the pattern is the match array of a salutation. *)
Lemma str_match_salutation_sound input a :
  str_match true (RBol ⋅ RGroup 1 alts ⋅ nameTail) 3 input = Some a →
  ∃ h ws t1 second,
    salutation_parts honorifics h ws t1 second = true
    ∧ input = salutation_text h ws t1 second
    ∧ a = salutation_match h ws t1 second.
Proof.
  unfold str_match.
  destruct (exec true _ input) as [m|] eqn:Hexec; [|done]. intros [= <-].
  apply exec_sound in Hexec as (before & s0 & s' & caps' & Hinput & Hsteps & ->).
  apply (salutation_pattern_steps input alts honorifics) in Hsteps
    as (h & ws & t1 & second & Hparts & -> & Hlen & -> & ->); [|apply alts_steps].
  destruct (anchored_at_start _ _ _ Hinput Hlen) as [-> _].
  simpl in Hinput. subst input.
  exists h, ws, t1, second. split; [done|]. split; [done|].
  apply match_array_salutation.
Qed.

(** Every salutation is matched, and its match array is its own. *)
Lemma str_match_salutation_complete h ws t1 second :
  salutation_parts honorifics h ws t1 second = true →
  str_match true (RBol ⋅ RGroup 1 alts ⋅ nameTail) 3 (salutation_text h ws t1 second)
  = Some (salutation_match h ws t1 second).
Proof.
  intros Hparts.
  assert (Hsome : is_Some (exec true (RBol ⋅ RGroup 1 alts ⋅ nameTail)
                             (salutation_text h ws t1 second))).
  { eapply exec_complete.
    apply (salutation_pattern_steps _ alts honorifics); [apply alts_steps|].
    by exists h, ws, t1, second. }
  destruct Hsome as [m Hm].
  assert (Hmatch : str_match true (RBol ⋅ RGroup 1 alts ⋅ nameTail) 3
                     (salutation_text h ws t1 second) = Some (match_array 3 m)).
  { unfold str_match. by rewrite Hm. }
  rewrite Hmatch. f_equal.
  destruct (str_match_salutation_sound _ _ Hmatch)
    as (h' & ws' & t1' & second' & Hparts' & Htext & ->).
  apply salutation_parts_inv in Hparts as (Hh & Hws & Ht1 & Hsecond).
  apply salutation_parts_inv in Hparts' as (Hh' & Hws' & Ht1' & Hsecond').
  apply (honorific_in_is_honorific _ _ honorifics_known) in Hh, Hh'.
  pose proof (split_ws_salutation h ws t1 second Hh Hws Ht1 Hsecond) as Hsplit.
  rewrite Htext, (split_ws_salutation h' ws' t1' second' Hh' Hws' Ht1' Hsecond')
    in Hsplit.
  unfold salutation_match. rewrite <- Htext.
  injection Hsplit as -> -> Hrest.
  by destruct second as [[? ?]|], second' as [[? ?]|]; simplify_eq.
Qed.

(** The pattern matches nothing else. *)
Lemma str_match_salutation_None input :
  (∀ h ws t1 second,
     salutation_parts honorifics h ws t1 second = true →
     input ≠ salutation_text h ws t1 second) →
  str_match true (RBol ⋅ RGroup 1 alts ⋅ nameTail) 3 input = None.
Proof.
  intros Hnone.
  destruct (str_match true _ 3 input) as [a|] eqn:Hmatch; [|done].
  apply str_match_salutation_sound in Hmatch
    as (h & ws & t1 & second & Hparts & -> & _).
  by destruct (Hnone h ws t1 second Hparts).
Qed.
End SalutationPattern.

Lemma malePattern_match h ws t1 second :
  salutation_parts male_honorifics h ws t1 second = true →
  str_match true malePattern 3 (salutation_text h ws t1 second)
  = Some (salutation_match h ws t1 second).
Proof.
  apply str_match_salutation_complete; [by left|].
  intros. apply male_alternation_steps.
Qed.

Lemma femalePattern_match h ws t1 second :
  salutation_parts female_honorifics h ws t1 second = true →
  str_match true femalePattern 3 (salutation_text h ws t1 second)
  = Some (salutation_match h ws t1 second).
Proof.
  apply str_match_salutation_complete; [by right|].
  intros. apply female_alternation_steps.
Qed.

Lemma malePattern_match_inv input a :
  str_match true malePattern 3 input = Some a →
  ∃ h ws t1 second,
    salutation_parts male_honorifics h ws t1 second = true
    ∧ input = salutation_text h ws t1 second
    ∧ a = salutation_match h ws t1 second.
Proof.
  apply str_match_salutation_sound. intros. apply male_alternation_steps.
Qed.

Lemma femalePattern_match_inv input a :
  str_match true femalePattern 3 input = Some a →
  ∃ h ws t1 second,
    salutation_parts female_honorifics h ws t1 second = true
    ∧ input = salutation_text h ws t1 second
    ∧ a = salutation_match h ws t1 second.
Proof.
  apply str_match_salutation_sound. intros. apply female_alternation_steps.
Qed.

(** The male pattern does not match a salutation with a female honorific. *)
Lemma malePattern_no_match_on_female h ws t1 second :
  salutation_parts female_honorifics h ws t1 second = true →
  str_match true malePattern 3 (salutation_text h ws t1 second) = None.
Proof.
  intros (Hh & Hws & Ht1 & Hsecond)%salutation_parts_inv.
  destruct (str_match true malePattern 3 _) as [a|] eqn:Hmatch; [|done].
  apply malePattern_match_inv in Hmatch
    as (h' & ws' & t1' & second' & (Hh' & Hws' & Ht1' & Hsecond')%salutation_parts_inv
        & Htext & _).
  pose proof (split_ws_salutation h ws t1 second
                (honorific_in_is_honorific _ _ (or_intror eq_refl) Hh)
                Hws Ht1 Hsecond) as Hsplit.
  rewrite Htext, (split_ws_salutation h' ws' t1' second'
                    (honorific_in_is_honorific _ _ (or_introl eq_refl) Hh')
                    Hws' Ht1' Hsecond') in Hsplit.
  injection Hsplit as -> _ _.
  destruct (honorifics_disjoint h Hh' Hh).
Qed.

(** ** parseSalutation *)





Lemma salutation_text_not_nil h ws t1 second : salutation_text h ws t1 second ≠ [].
Proof. unfold salutation_text. by destruct h. Qed.

Lemma trim_not_nil s : trim s ≠ [] → s ≠ [].
Proof. by intros Hs ->. Qed.

Lemma salutation_parts_not_nil hs h ws t1 second :
  hs = male_honorifics ∨ hs = female_honorifics →
  salutation_parts hs h ws t1 second = true → h ≠ [] ∧ t1 ≠ [].
Proof.
  intros Hhs (Hh & _ & Ht1 & _)%salutation_parts_inv.
  apply (honorific_in_is_honorific _ _ Hhs), is_honorific_no_space in Hh as [_ Hh].
  split; [done|]. by destruct t1.
Qed.

Lemma malePatternSource_text :
  Script.malePatternSource = js "^(Mr\.|Herr)\s(\w+)(?:\s(\w+))?$".
Proof. reflexivity. Qed.

Lemma parseSalutation_string s :
  s ≠ [] →
  Immoscout.parseSalutation (VStr s)
  = match str_match true malePattern 3 (trim s) with
    | Some maleMatch =>
        Some {| gender := male;
                lastName := if truthy maleMatch.[1] && truthy maleMatch.[2]
                            then maleMatch.[2] else maleMatch.[1] |}
    | None =>
        match str_match true femalePattern 3 (trim s) with
        | Some femaleMatch =>
            Some {| gender := female;
                    lastName := if truthy femaleMatch.[1] && truthy femaleMatch.[2]
                                then femaleMatch.[2] else femaleMatch.[1] |}
        | None => None
        end
    end.
Proof. by destruct s. Qed.

Lemma script_parseSalutation_string s :
  s ≠ [] →
  Script.parseSalutation (VStr s)
  = match str_match true malePattern 3 (trim s) with
    | Some maleMatch =>
        _ ← console_log [LogValue (VArr maleMatch)];
        mret (Some {| gender := male;
                      lastName := if truthy maleMatch.[2] && truthy maleMatch.[3]
                                  then maleMatch.[3] else maleMatch.[2] |})
    | None =>
        match str_match true femalePattern 3 (trim s) with
        | Some femaleMatch =>
            mret (Some {| gender := female;
                          lastName := if truthy femaleMatch.[1] && truthy femaleMatch.[2]
                                      then femaleMatch.[2] else femaleMatch.[1] |})
        | None => mret None
        end
    end.
Proof. by destruct s. Qed.

Section ParseSalutationFacts.
Variables (s h : jsstring) (ws : N) (t1 : jsstring) (second : option (N * jsstring)).
Hypothesis trimmed : trim s = salutation_text h ws t1 second.

Lemma subject_not_nil : s ≠ [].
Proof.
  apply trim_not_nil. rewrite trimmed. apply salutation_text_not_nil.
Qed.

(** Both branches of the provider's version answer with the first name
    token. *)
Lemma parseSalutation_male :
  salutation_parts male_honorifics h ws t1 second = true →
  Immoscout.parseSalutation (VStr s)
  = Some {| gender := male; lastName := VStr t1 |}.
Proof.
  intros Hparts.
  destruct (salutation_parts_not_nil _ _ _ _ _ (or_introl eq_refl) Hparts) as [Hh Ht1].
  rewrite (parseSalutation_string s subject_not_nil), trimmed,
    (malePattern_match _ _ _ _ Hparts).
  unfold salutation_match, at_index. cbn [nth truthy].
  by destruct h, t1.
Qed.

Lemma parseSalutation_female :
  salutation_parts female_honorifics h ws t1 second = true →
  Immoscout.parseSalutation (VStr s)
  = Some {| gender := female; lastName := VStr t1 |}.
Proof.
  intros Hparts.
  destruct (salutation_parts_not_nil _ _ _ _ _ (or_intror eq_refl) Hparts) as [Hh Ht1].
  rewrite (parseSalutation_string s subject_not_nil), trimmed,
    (malePattern_no_match_on_female _ _ _ _ Hparts),
    (femalePattern_match _ _ _ _ Hparts).
  unfold salutation_match, at_index. cbn [nth truthy].
  by destruct h, t1.
Qed.

(** The male branch of the script answers with the final name token, its
    female branch with the first. *)
Lemma script_parseSalutation_male :
  salutation_parts male_honorifics h ws t1 second = true →
  (run (Script.parseSalutation (VStr s))).1
  = Return (Some {| gender := male; lastName := VStr (final_token t1 second) |}).
Proof.
  intros Hparts.
  destruct (salutation_parts_not_nil _ _ _ _ _ (or_introl eq_refl) Hparts) as [Hh Ht1].
  rewrite (script_parseSalutation_string s subject_not_nil), trimmed,
    (malePattern_match _ _ _ _ Hparts).
  unfold salutation_match, at_index, run. unfold_io.
  apply salutation_parts_inv in Hparts as (_ & _ & _ & Hsecond).
  destruct second as [[ws' t2]|]; simpl in *.
  - apply andb_prop in Hsecond as [_ Ht2]. by destruct t1, t2.
  - by destruct t1.
Qed.

Lemma script_parseSalutation_female :
  salutation_parts female_honorifics h ws t1 second = true →
  (run (Script.parseSalutation (VStr s))).1
  = Return (Some {| gender := female; lastName := VStr t1 |}).
Proof.
  intros Hparts.
  destruct (salutation_parts_not_nil _ _ _ _ _ (or_intror eq_refl) Hparts) as [Hh Ht1].
  rewrite (script_parseSalutation_string s subject_not_nil), trimmed,
    (malePattern_no_match_on_female _ _ _ _ Hparts),
    (femalePattern_match _ _ _ _ Hparts).
  unfold salutation_match, at_index, run. unfold_io.
  by destruct h, t1.
Qed.
End ParseSalutationFacts.




(** C1 fails on the code: for an honorific and two name tokens the
    provider's [parseSalutation] answers with the first name token, not the
    final one, whatever the honorific; the script's version does the same
    for a female honorific, while its male branch, which reads the groups 2
    and 3, answers with the final token. *)
Theorem parseSalutation_two_tokens_first_token
    (s h : jsstring) (ws : N) (t1 : jsstring) (ws' : N) (t2 : jsstring) :
  trim s = salutation_text h ws t1 (Some (ws', t2)) →
  (salutation_parts male_honorifics h ws t1 (Some (ws', t2)) = true →
   Immoscout.parseSalutation (VStr s)
   = Some {| gender := male; lastName := VStr t1 |}
   ∧ (run (Script.parseSalutation (VStr s))).1
     = Return (Some {| gender := male; lastName := VStr t2 |}))
  ∧ (salutation_parts female_honorifics h ws t1 (Some (ws', t2)) = true →
     Immoscout.parseSalutation (VStr s)
     = Some {| gender := female; lastName := VStr t1 |}
     ∧ (run (Script.parseSalutation (VStr s))).1
       = Return (Some {| gender := female; lastName := VStr t1 |})).
Proof.
  intros Htrim. split; intros Hparts.
  - split; [by eapply parseSalutation_male|].
    by rewrite (script_parseSalutation_male s h ws t1 _ Htrim Hparts).
  - split; [by eapply parseSalutation_female|].
    by rewrite (script_parseSalutation_female s h ws t1 _ Htrim Hparts).
Qed.

Lemma parseSalutation_two_tokens_first_token_witness :
  Immoscout.parseSalutation (VStr (js "Frau Erika Musterfrau"))
  = Some {| gender := female; lastName := VStr (js "Erika") |}
  ∧ (run (Script.parseSalutation (VStr (js "Frau Erika Musterfrau")))).1
    = Return (Some {| gender := female; lastName := VStr (js "Erika") |}).
Proof.
  apply (parseSalutation_two_tokens_first_token
           (js "Frau Erika Musterfrau") (js "Frau") 32 (js "Erika") 32 (js "Musterfrau"));
    vm_compute; reflexivity.
Defined.

(** ** The id of a listing *)

(** Whatever [buildHash] is, the id [normalize] assigns is its value at the
    former id and the price. *)
Lemma assigned_id_normalize `{Runtime} (o : nat) (h : heap) (obj : object) o1 h1 :
  h !! o = Some obj →
  Immoscout.normalize o h = (Return o1, h1) →
  assigned_id (Immoscout.normalize o h)
  = Some (buildHash (field obj (js "id")) (field obj (js "price"))).
Proof.
  intros Hobj Hn. rewrite Hn.
  destruct (normalize_inv _ _ _ _ _ Hobj Hn) as (title & address & _ & _ & -> & ->).
  simpl. rewrite lookup_insert_eq. simpl. apply assign_fields_id.
Qed.

(** C2: the id [normalize] assigns is a function of the former id and the
    price alone: two listings with the same id and the same price get the
    same id, whatever their other properties and whatever the store; and,
    with the hash of the specification, two listings with the same id and
    different prices get different ids. *)
Theorem normalize_id_of_native_id_and_price
    (R : Runtime) (o1 o2 : nat) (h1 h2 : heap) (obj1 obj2 : object)
    (r1 r2 : nat) (h1' h2' : heap) :
  h1 !! o1 = Some obj1 →
  h2 !! o2 = Some obj2 →
  @Immoscout.normalize (with_spec_buildHash R) o1 h1 = (Return r1, h1') →
  @Immoscout.normalize (with_spec_buildHash R) o2 h2 = (Return r2, h2') →
  field obj1 (js "id") = field obj2 (js "id") →
  (field obj1 (js "price") = field obj2 (js "price") →
   assigned_id (@Immoscout.normalize (with_spec_buildHash R) o1 h1)
   = assigned_id (@Immoscout.normalize (with_spec_buildHash R) o2 h2))
  ∧ (field obj1 (js "price") ≠ field obj2 (js "price") →
     assigned_id (@Immoscout.normalize (with_spec_buildHash R) o1 h1)
     ≠ assigned_id (@Immoscout.normalize (with_spec_buildHash R) o2 h2)).
Proof.
  intros Hobj1 Hobj2 Hn1 Hn2 Hid.
  rewrite (@assigned_id_normalize (with_spec_buildHash R) _ _ _ _ _ Hobj1 Hn1).
  rewrite (@assigned_id_normalize (with_spec_buildHash R) _ _ _ _ _ Hobj2 Hn2).
  simpl. unfold spec_buildHash. rewrite Hid. split.
  - by intros ->.
  - intros Hprice [= Heq]. done.
Qed.

Lemma normalize_id_of_native_id_and_price_witness :
  assigned_id (@Immoscout.normalize (with_spec_buildHash sample_runtime) 0%nat sample_heap)
  = assigned_id (@Immoscout.normalize (with_spec_buildHash sample_runtime) 0%nat two_prices_heap)
  ∧ assigned_id (@Immoscout.normalize (with_spec_buildHash sample_runtime) 0%nat two_prices_heap)
    ≠ assigned_id (@Immoscout.normalize (with_spec_buildHash sample_runtime) 1%nat two_prices_heap).
Proof.
  split.
  - refine (proj1 (normalize_id_of_native_id_and_price sample_runtime
                     0%nat 0%nat sample_heap two_prices_heap
                     sample_listing sample_listing 0%nat 0%nat _ _ _ _ _ _ _) _);
      reflexivity.
  - refine (proj2 (normalize_id_of_native_id_and_price sample_runtime
                     0%nat 1%nat two_prices_heap two_prices_heap
                     sample_listing repriced_listing 0%nat 1%nat _ _ _ _ _ _ _) _);
      try reflexivity.
    vm_compute. discriminate.
Defined.

(* ===================================================================== *)
(** * Further properties of the code *)
(* ===================================================================== *)

(** ** Geocoding *)

Lemma null_or_truthy_or_null v : null_or_truthy (js_or v VNull) = true.
Proof. unfold js_or. destruct (truthy v) eqn:Hv; [by destruct v|done]. Qed.

Lemma js_or_null_id v : null_or_truthy v = true → js_or v VNull = v.
Proof.
  unfold js_or, null_or_truthy. destruct (truthy v) eqn:Hv; [done|].
  destruct v; congruence.
Qed.

Lemma field_or_null_truthy address key :
  truthy address = true →
  Geocoding.field_or_null address key = Return (address_field address key).
Proof.
  intros Ht. unfold Geocoding.field_or_null, address_field.
  destruct (get_returns address key) as [v ->]; [by destruct address|done].
Qed.

Lemma address_field_null_or_truthy address key :
  null_or_truthy (address_field address key) = true.
Proof.
  unfold address_field. destruct (get address key); [|done].
  apply null_or_truthy_or_null.
Qed.

Lemma extractAddressComponents_cases data t :
  (truthy (response_address data) = false
   ∧ Geocoding.extractAddressComponents data t
     = (Return None,
        t ++ [ConsoleError [LogStr (js "Geocoding service: Address missing.")]]))
  ∨ (truthy (response_address data) = true
     ∧ ∃ a, Geocoding.extractAddressComponents data t
            = (Return (Some a), t ++ [ConsoleLog [LogValue data]])
            ∧ Geocoding.suburb a = address_field (response_address data) (js "suburb")
            ∧ Forall (fun v => null_or_truthy v = true)
                [Geocoding.houseNumber a; Geocoding.street a;
                 Geocoding.neighbourhood a; Geocoding.suburb a;
                 Geocoding.borough a; Geocoding.city a; Geocoding.postcode a;
                 Geocoding.country a; Geocoding.countryCode a;
                 Geocoding.displayName a]).
Proof.
  unfold Geocoding.extractAddressComponents, response_address.
  destruct (opt_get_returns data (js "address")) as [address Haddress].
  rewrite Haddress. unfold mbind at 1, IO_bind at 1, lift at 1.
  destruct (truthy address) eqn:Htruthy; cbn [negb]; [right|left; by split].
  split; [done|].
  assert (Hdata : nullish data = false).
  { destruct data; try done; unfold opt_get in Haddress; simpl in Haddress;
      by simplify_eq. }
  destruct (get_returns data (js "display_name") Hdata) as [display Hdisplay].
  assert (Hnn : nullish address = false) by by destruct address.
  destruct (get_returns address (js "city") Hnn) as [city Hcity].
  destruct (get_returns address (js "town") Hnn) as [town Htown].
  destruct (get_returns address (js "village") Hnn) as [village Hvillage].
  eexists. split.
  - unfold mbind, IO_bind, console_log, emit, lift, outcome_bind.
    rewrite Htruthy. cbn [negb].
    rewrite !(field_or_null_truthy address _ Htruthy), Hcity, Htown, Hvillage, Hdisplay.
    reflexivity.
  - cbn [Geocoding.suburb Geocoding.houseNumber Geocoding.street
           Geocoding.neighbourhood Geocoding.borough Geocoding.city
           Geocoding.postcode Geocoding.country Geocoding.countryCode
           Geocoding.displayName].
    split; [done|].
    repeat constructor;
      try apply address_field_null_or_truthy; apply null_or_truthy_or_null.
Qed.

Ltac trace_done :=
  rewrite <- ?app_assoc; simpl;
  eexists _, _; split; [reflexivity|]; split; [by eauto|done].

Section GeocodingMore.
Context `{Runtime}.
Import Geocoding.

(** What a call of [reverseGeocode] adds to the trace. *)
Lemma reverseGeocode_trace lat lon t :
  ∃ r evs,
    reverseGeocode lat lon t = (Return r, t ++ evs)
    ∧ (if both_numbers lat lon
       then ∃ url, reverse_url lat lon = Return url
                   ∧ network_calls evs = [Fetch (geocode_request url)]
       else network_calls evs = [])
    ∧ match r with
      | None => length (console_errors evs) = 1%nat
      | Some _ => console_errors evs = []
      end.
Proof.
  unfold reverseGeocode, both_numbers.
  destruct (nullish lat || nullish lon) eqn:Hnull.
  { unfold_io. eexists None, [_]. split; [done|]. split; [|done].
    by destruct lat, lon. }
  destruct (negb (jstype_eqb (typeof lat) TNumber) || negb (jstype_eqb (typeof lon) TNumber))
    eqn:Htype.
  { unfold_io. eexists None, [_]. split; [done|]. split; [|done].
    by destruct lat, lon. }
  destruct lat as [| | |lat| | |]; try discriminate.
  destruct lon as [| | |lon| | |]; try discriminate.
  unfold throttledFetch. unfold_io.
  destruct (network _) as [resp|]; [|trace_done].
  destruct (resp_ok resp); simpl; [|trace_done].
  destruct (resp_json resp) as [data|]; [|trace_done].
  destruct (get data (js "error")) as [err|]; [|trace_done].
  destruct (truthy err); [trace_done|].
  match goal with
  | |- context [extractAddressComponents data ?t'] =>
      destruct (extractAddressComponents_cases data t')
        as [[_ ->]|(_ & a & -> & _)]
  end; trace_done.
Qed.

Lemma getSuburb_trace lat lon t :
  ∃ suburb evs,
    getSuburb lat lon t = (Return suburb, t ++ evs)
    ∧ null_or_truthy suburb = true
    ∧ (if both_numbers lat lon
       then ∃ url, reverse_url lat lon = Return url
                   ∧ network_calls evs = [Fetch (geocode_request url)]
       else network_calls evs = []).
Proof.
  destruct (reverseGeocode_trace lat lon t) as (r & evs & Hr & Hcalls & _).
  unfold getSuburb. unfold_io. rewrite Hr.
  eexists _, evs. split; [done|]. split; [|done].
  destruct r; [apply null_or_truthy_or_null|done].
Qed.
End GeocodingMore.

(** X1: [reverseGeocode] never throws, whatever the arguments and whatever
    the network does, and it makes at most one request: there is no
    retry. *)
Theorem reverseGeocode_never_throws `{Runtime} (lat lon : value) :
  ∃ r t,
    run (Geocoding.reverseGeocode lat lon) = (Return r, t)
    ∧ (length (network_calls t) ≤ 1)%nat.
Proof.
  destruct (reverseGeocode_trace lat lon []) as (r & evs & Hr & Hcalls & _).
  exists r, evs. split; [exact Hr|].
  destruct (both_numbers lat lon);
    [destruct Hcalls as (url & _ & ->)|rewrite Hcalls]; simpl; lia.
Qed.

(** X2: a null answer of [reverseGeocode] comes with exactly one line of
    [console.error], an address with none. *)
Theorem reverseGeocode_null_iff_error_logged `{Runtime} (lat lon : value) :
  ∃ r t,
    run (Geocoding.reverseGeocode lat lon) = (Return r, t)
    ∧ (r = None ↔ length (console_errors t) = 1%nat)
    ∧ (is_Some r ↔ console_errors t = []).
Proof.
  destruct (reverseGeocode_trace lat lon []) as (r & evs & Hr & _ & Hlog).
  exists r, evs. split; [exact Hr|].
  destruct r as [a|].
  - rewrite Hlog. split; [split; [done|simpl; lia]|]. split; [done|eauto].
  - destruct (console_errors evs); [done|].
    split; [done|]. split; [by intros [? ?]|done].
Qed.

(** X3: [extractAddressComponents] answers null exactly when the response
    has no address, and every field of an address it answers with is null
    or a truthy value: never undefined, an empty string, zero or false. *)
Theorem extractAddressComponents_fields_null_or_truthy (data : value) :
  ∃ r ev,
    run (Geocoding.extractAddressComponents data) = (Return r, [ev])
    ∧ (r = None ↔ truthy (response_address data) = false)
    ∧ ∀ a, r = Some a →
           Forall (fun v => null_or_truthy v = true)
             [Geocoding.houseNumber a; Geocoding.street a;
              Geocoding.neighbourhood a; Geocoding.suburb a;
              Geocoding.borough a; Geocoding.city a; Geocoding.postcode a;
              Geocoding.country a; Geocoding.countryCode a;
              Geocoding.displayName a].
Proof.
  unfold run.
  destruct (extractAddressComponents_cases data []) as [[Hno ->]|(Hyes & a & -> & _ & Hall)].
  - eexists None, _. split; [done|]. split; [done|]. by intros a [=].
  - eexists (Some a), _. split; [done|]. split.
    + split; [done|]. rewrite Hyes. done.
    + by intros a' [= <-].
Qed.

(** X4: [getSuburb] never throws, makes at most one request, and answers
    null or a truthy value (never undefined or an empty string). *)
Theorem getSuburb_null_or_truthy `{Runtime} (lat lon : value) :
  ∃ suburb t,
    run (Geocoding.getSuburb lat lon) = (Return suburb, t)
    ∧ null_or_truthy suburb = true
    ∧ (length (network_calls t) ≤ 1)%nat.
Proof.
  destruct (getSuburb_trace lat lon []) as (suburb & evs & Hs & Hv & Hcalls).
  exists suburb, evs. split; [exact Hs|]. split; [done|].
  destruct (both_numbers lat lon);
    [destruct Hcalls as (url & _ & ->)|rewrite Hcalls]; simpl; lia.
Qed.

(** X5: for two numbers and an answer with a success status whose body
    carries no error, [getSuburb] is the [suburb] of the body's address, or
    null where the address or its suburb is missing or empty. *)
Theorem getSuburb_of_answer
    `{Runtime} (lat lon : value) (url : jsstring) (resp : response)
    (data err : value) :
  both_numbers lat lon = true →
  Geocoding.reverse_url lat lon = Return url →
  network (Geocoding.geocode_request url) = Some resp →
  resp_ok resp = true →
  resp_json resp = Return data →
  get data (js "error") = Return err →
  truthy err = false →
  (run (Geocoding.getSuburb lat lon)).1
  = Return (address_field (response_address data) (js "suburb")).
Proof.
  intros Hboth Hurl Hnet Hok Hjson Herr Hfalsy.
  unfold Geocoding.getSuburb, Geocoding.reverseGeocode, both_numbers in *.
  destruct lat; try discriminate. destruct lon; try discriminate.
  rewrite Hurl.
  unfold Geocoding.throttledFetch. unfold_io.
  rewrite Hnet, Hok. simpl. rewrite Hjson, Herr, Hfalsy.
  match goal with
  | |- context [Geocoding.extractAddressComponents data ?t] =>
      destruct (extractAddressComponents_cases data t)
        as [[Hno ->]|(Hyes & a & -> & Hsuburb & _)]
  end; simpl.
  - f_equal. unfold address_field.
    destruct (get (response_address data) (js "suburb")) as [v|] eqn:Hget; [|done].
    destruct (response_address data) as [| | |?|?| |];
      try done; simpl in Hget; simplify_eq; try done.
  - f_equal. rewrite Hsuburb. apply js_or_null_id, address_field_null_or_truthy.
Qed.

Lemma getSuburb_of_answer_witness :
  (run (@Geocoding.getSuburb sample_runtime (VNum num_52_5) (VNum num_13_4))).1
  = Return (VStr (js "Mitte")).
Proof.
  apply (@getSuburb_of_answer sample_runtime (VNum num_52_5) (VNum num_13_4)
           (js "https://nominatim.openstreetmap.org/reverse?lat=13.4&lon=13.4&format=json")
           (mkResponse true 200 (js "OK") (Return sample_geocode_json))
           sample_geocode_json VUndef); reflexivity.
Defined.

(** X6: [reverseGeocode] answers with an address exactly when both
    arguments are numbers, the request is answered with a success status
    and a JSON body, and the body has no truthy [error] and a truthy
    [address]; in every other case it answers null. *)
Theorem reverseGeocode_answers_iff `{Runtime} (lat lon : value) :
  (∃ a, (run (Geocoding.reverseGeocode lat lon)).1 = Return (Some a))
  ↔ both_numbers lat lon = true
    ∧ ∃ url resp data err,
        Geocoding.reverse_url lat lon = Return url
        ∧ network (Geocoding.geocode_request url) = Some resp
        ∧ resp_ok resp = true
        ∧ resp_json resp = Return data
        ∧ get data (js "error") = Return err
        ∧ truthy err = false
        ∧ truthy (response_address data) = true.
Proof.
  unfold Geocoding.reverseGeocode, both_numbers.
  destruct (nullish lat || nullish lon) eqn:Hnull.
  { unfold_io. split; [by intros [a [=]]|]. intros [Hb _]. by destruct lat, lon. }
  destruct (negb (jstype_eqb (typeof lat) TNumber) || negb (jstype_eqb (typeof lon) TNumber))
    eqn:Htype.
  { unfold_io. split; [by intros [a [=]]|]. intros [Hb _]. by destruct lat, lon. }
  destruct lat as [| | |x| | |]; try discriminate.
  destruct lon as [| | |y| | |]; try discriminate.
  destruct (Geocoding.reverse_url (VNum x) (VNum y)) as [url|] eqn:Hurl;
    [|discriminate Hurl].
  clear Hurl. unfold Geocoding.throttledFetch. unfold_io.
  destruct (network _) as [resp|] eqn:Hnet.
  2: { split; [by intros [a [=]]|].
       intros (_ & ? & ? & ? & ? & [= <-] & ? & _). congruence. }
  destruct (resp_ok resp) eqn:Hok; simpl.
  2: { split; [by intros [a [=]]|].
       intros (_ & ? & ? & ? & ? & [= <-] & ? & ? & _). congruence. }
  destruct (resp_json resp) as [data|] eqn:Hjson.
  2: { split; [by intros [a [=]]|].
       intros (_ & ? & ? & ? & ? & [= <-] & ? & _ & ? & _). congruence. }
  destruct (get data (js "error")) as [err|] eqn:Herr.
  2: { split; [by intros [a [=]]|].
       intros (_ & ? & ? & ? & ? & [= <-] & ? & _ & ? & ? & _). congruence. }
  destruct (truthy err) eqn:Hfalsy.
  { split; [by intros [a [=]]|].
    intros (_ & ? & ? & ? & ? & [= <-] & ? & _ & ? & ? & ? & _). congruence. }
  match goal with
  | |- context [Geocoding.extractAddressComponents data ?t] =>
      destruct (extractAddressComponents_cases data t)
        as [[Hno ->]|(Hyes & a & -> & _)]
  end; simpl.
  - split; [by intros [a [=]]|].
    intros (_ & ? & ? & ? & ? & [= <-] & ? & _ & ? & ? & ? & ?). congruence.
  - split; [|by eauto]. intros _. split; [done|].
    by exists url, resp, data, err.
Qed.

(** ** getListingInfo, further *)

Section ListingInfoMore.
Context `{Runtime}.
Import Immoscout.

(** What [extract_suburb] adds to the trace: nothing, or what one call of
    [getSuburb] adds. *)
Lemma extract_suburb_trace body t :
  ∃ r evs,
    extract_suburb body t = (r, t ++ evs)
    ∧ (∀ suburb, r = Return suburb → null_or_truthy suburb = true)
    ∧ (network_calls evs = []
       ∨ ∃ lat lng geo,
           both_numbers lat lng = true
           ∧ Geocoding.reverse_url lat lng = Return geo
           ∧ network_calls evs = [Fetch (Geocoding.geocode_request geo)]).
Proof.
  unfold extract_suburb.
  unfold mbind at 1, IO_bind at 1, lift at 1.
  destruct (_ ← get body (js "sections"); _) as [mapSection|e] eqn:Hmap.
  2: { exists (Throw e), []. rewrite app_nil_r. split; [done|]. split; [done|by left]. }
  destruct (truthy mapSection) eqn:Htruthy.
  2: { exists (Return VNull), []. rewrite app_nil_r. split; [done|].
       split; [by intros ? [= <-]|by left]. }
  assert (Hnn : nullish mapSection = false) by by destruct mapSection.
  destruct (get_returns mapSection (js "lat") Hnn) as [lat Hlat].
  destruct (get_returns mapSection (js "lng") Hnn) as [lng Hlng].
  unfold mbind, IO_bind, lift. rewrite Hlat, Hlng.
  destruct (getSuburb_trace lat lng t) as (suburb & evs & -> & Hv & Hcalls).
  exists (Return suburb), evs. split; [done|]. split; [by intros ? [= <-]|].
  destruct (both_numbers lat lng) eqn:Hboth; [right|by left].
  destruct Hcalls as (geo & Hgeo & Hcalls). by exists lat, lng, geo.
Qed.

Lemma extract_roomCount_null_or_number body roomCount :
  extract_roomCount body = Return roomCount →
  roomCount = VNull ∨ ∃ n, roomCount = VNum n.
Proof.
  unfold extract_roomCount. unfold_outcome.
  repeat (case_match; try done); intros [= <-]; eauto.
Qed.
End ListingInfoMore.

(** Whatever [parseSalutation] answers with is read off a salutation: its
    gender from the honorific, its last name the first name token. *)
Lemma parseSalutation_inv v sal :
  Immoscout.parseSalutation v = Some sal →
  ∃ s h ws t1 second,
    v = VStr s
    ∧ trim s = salutation_text h ws t1 second
    ∧ lastName sal = VStr t1
    ∧ ((gender sal = male
        ∧ salutation_parts male_honorifics h ws t1 second = true)
       ∨ (gender sal = female
          ∧ salutation_parts female_honorifics h ws t1 second = true)).
Proof.
  unfold Immoscout.parseSalutation.
  destruct (negb (truthy v) || _); [done|].
  destruct v as [| | | |s| |]; try done.
  destruct (str_match true malePattern 3 (trim s)) as [a|] eqn:Hmale.
  - apply malePattern_match_inv in Hmale as (h & ws & t1 & second & Hparts & Htrim & ->).
    intros [= <-]. exists s, h, ws, t1, second. split; [done|]. split; [done|].
    destruct (salutation_parts_not_nil _ _ _ _ _ (or_introl eq_refl) Hparts) as [Hh Ht1].
    split; [|by left].
    unfold salutation_match, at_index. cbn [nth truthy lastName]. by destruct h, t1.
  - destruct (str_match true femalePattern 3 (trim s)) as [a|] eqn:Hfemale; [|done].
    apply femalePattern_match_inv in Hfemale
      as (h & ws & t1 & second & Hparts & Htrim & ->).
    intros [= <-]. exists s, h, ws, t1, second. split; [done|]. split; [done|].
    destruct (salutation_parts_not_nil _ _ _ _ _ (or_intror eq_refl) Hparts) as [Hh Ht1].
    split; [|by right].
    unfold salutation_match, at_index. cbn [nth truthy lastName]. by destruct h, t1.
Qed.

(** X7: [getListingInfo] makes no request where its argument has no text
    (the URL cannot be written, and it throws); otherwise it makes one
    request for the listing and at most one more, to the geocoding service
    and for two numbers; it makes no other request, whatever the answers
    are. *)
Theorem getListingInfo_requests `{Runtime} (listingId : value) :
  let calls := network_calls (run (Immoscout.getListingInfo listingId)).2 in
  match Immoscout.detail_url listingId with
  | Throw e => run (Immoscout.getListingInfo listingId) = (Throw e, [])
  | Return url =>
      calls = [Fetch (Immoscout.detail_request url)]
      ∨ ∃ lat lng geo,
          both_numbers lat lng = true
          ∧ Geocoding.reverse_url lat lng = Return geo
          ∧ calls = [Fetch (Immoscout.detail_request url);
                     Fetch (Geocoding.geocode_request geo)]
  end.
Proof.
  intros calls. subst calls.
  destruct (run (Immoscout.getListingInfo listingId)) as [r t] eqn:Hrun.
  simpl. revert Hrun.
  unfold Immoscout.getListingInfo, run.
  unfold mbind at 1, IO_bind at 1, lift at 1.
  destruct (Immoscout.detail_url listingId) as [url|e]; [|by intros [= <- <-]].
  unfold mbind at 1, IO_bind at 1, fetch. simpl.
  destruct (network _) as [resp|]; [|intros [= <- <-]; by left].
  destruct (resp_ok resp); simpl; [|intros [= <- <-]; by left].
  unfold json, lift, mbind, IO_bind.
  destruct (resp_json resp) as [body|]; [|intros [= <- <-]; by left].
  destruct (Immoscout.extract_roomCount body) as [roomCount|];
    [|intros [= <- <-]; by left].
  destruct (extract_suburb_trace body [Fetch (Immoscout.detail_request url)])
    as (r' & evs & -> & _ & Hcalls).
  assert (Hgoal :
    network_calls ([Fetch (Immoscout.detail_request url)] ++ evs)
    = [Fetch (Immoscout.detail_request url)]
    ∨ ∃ lat lng geo,
        both_numbers lat lng = true
        ∧ Geocoding.reverse_url lat lng = Return geo
        ∧ network_calls ([Fetch (Immoscout.detail_request url)] ++ evs)
          = [Fetch (Immoscout.detail_request url);
             Fetch (Geocoding.geocode_request geo)]).
  { rewrite network_calls_app.
    destruct Hcalls as [->|(lat & lng & geo & Hboth & Hgeo & ->)]; [by left|right].
    by exists lat, lng, geo. }
  destruct r' as [suburb|]; [|by intros [= <- <-]].
  by destruct (Immoscout.extract_salutation body); intros [= <- <-].
Qed.

(** X8: what [getListingInfo] answers with, when it is not null: the id
    is the argument, the number of rooms is null or a number, the suburb is
    null or a truthy value, and the last name of a salutation is a
    non-empty run of word characters. *)
Theorem getListingInfo_result_shape
    `{Runtime} (listingId : value) (info : Immoscout.ListingInfo) (t : list event) :
  run (Immoscout.getListingInfo listingId) = (Return (Some info), t) →
  Immoscout.li_id info = listingId
  ∧ (Immoscout.li_roomCount info = VNull ∨ ∃ n, Immoscout.li_roomCount info = VNum n)
  ∧ null_or_truthy (Immoscout.li_suburb info) = true
  ∧ ∀ sal, Immoscout.li_salutation info = Some sal →
           ∃ name, lastName sal = VStr name ∧ is_name_token name = true.
Proof.
  unfold Immoscout.getListingInfo, run.
  unfold mbind at 1, IO_bind at 1, lift at 1.
  destruct (Immoscout.detail_url listingId) as [url|]; [|done].
  unfold mbind at 1, IO_bind at 1, fetch. simpl.
  destruct (network _) as [resp|]; [|done].
  destruct (resp_ok resp); simpl; [|done].
  unfold json, lift, mbind, IO_bind.
  destruct (resp_json resp) as [body|]; [|done].
  destruct (Immoscout.extract_roomCount body) as [roomCount|] eqn:Hrooms; [|done].
  destruct (extract_suburb_trace body [Fetch (Immoscout.detail_request url)])
    as (r & evs & -> & Hsuburb & _).
  destruct r as [suburb|]; [|done].
  destruct (Immoscout.extract_salutation body) as [salutation|] eqn:Hsal; [|done].
  intros [= <- <-]. simpl.
  split; [done|]. split; [by eapply extract_roomCount_null_or_number|].
  split; [by apply Hsuburb|].
  intros sal ->.
  unfold Immoscout.extract_salutation in Hsal. unfold_outcome.
  repeat (case_match; try done). simplify_eq.
  match goal with
  | Hp : Immoscout.parseSalutation _ = Some _ |- _ =>
      apply parseSalutation_inv in Hp
        as (s & h & ws & t1 & second & _ & _ & Hname & Hparts)
  end.
  exists t1. split; [done|].
  by destruct Hparts as [[_ (_ & _ & Ht1 & _)%salutation_parts_inv]
                        |[_ (_ & _ & Ht1 & _)%salutation_parts_inv]].
Qed.

Lemma getListingInfo_result_shape_witness :
  ∃ info t,
    run (@Immoscout.getListingInfo detail_runtime sample_listingId) = (Return (Some info), t)
    ∧ Immoscout.li_id info = sample_listingId
    ∧ null_or_truthy (Immoscout.li_suburb info) = true.
Proof.
  eexists _, _. split; [vm_compute; reflexivity|].
  match goal with
  | |- Immoscout.li_id ?info = _ ∧ _ =>
      pose proof (@getListingInfo_result_shape detail_runtime sample_listingId info _
                    ltac:(vm_compute; reflexivity)) as (Hid & _ & Hsuburb & _)
  end.
  by split.
Defined.

(** X9: a listing whose details have neither [sections] nor [contact]
    gives the id and three nulls, with the one request for the listing
    and nothing printed. *)
Theorem getListingInfo_missing_keys
    `{Runtime} (listingId : value) (url : jsstring) (resp : response)
    (body sections contact : value) :
  Immoscout.detail_url listingId = Return url →
  network (Immoscout.detail_request url) = Some resp →
  resp_ok resp = true →
  resp_json resp = Return body →
  get body (js "sections") = Return sections →
  nullish sections = true →
  get body (js "contact") = Return contact →
  nullish contact = true →
  run (Immoscout.getListingInfo listingId)
  = (Return (Some {| Immoscout.li_id := listingId;
                     Immoscout.li_roomCount := VNull;
                     Immoscout.li_suburb := VNull;
                     Immoscout.li_salutation := None |}),
     [Fetch (Immoscout.detail_request url)]).
Proof.
  intros Hurl Hnet Hok Hjson Hsections Hns Hcontact Hnc.
  rewrite (getListingInfo_answered listingId url resp body Hurl Hnet Hok Hjson).
  unfold Immoscout.extract_roomCount, Immoscout.extract_suburb,
    Immoscout.extract_salutation.
  unfold_io. rewrite Hsections, Hcontact.
  unfold opt_call_find, opt_get. rewrite Hns, Hnc. reflexivity.
Qed.

Lemma getListingInfo_missing_keys_witness :
  run (@Immoscout.getListingInfo (runtime_with (Some empty_object_response)) sample_listingId)
  = (Return (Some {| Immoscout.li_id := sample_listingId;
                     Immoscout.li_roomCount := VNull;
                     Immoscout.li_suburb := VNull;
                     Immoscout.li_salutation := None |}),
     [Fetch (Immoscout.detail_request sample_detail_url)]).
Proof.
  apply (@getListingInfo_missing_keys (runtime_with (Some empty_object_response))
           sample_listingId sample_detail_url empty_object_response
           (VObj []) VUndef VUndef);
    reflexivity.
Defined.

Lemma digits_value_run ds rest acc :
  forallb isDigit ds = true → no_digit_ahead rest = true →
  digits_value acc (ds ++ rest)
  = fold_left (fun acc c => 10 * acc + Z.of_N (c - 48))%Z ds acc.
Proof.
  revert acc. induction ds as [|d ds IH]; intros acc Hds Hrest; simpl in *.
  - destruct rest as [|c rest]; [done|]. simpl in *.
    by destruct (isDigit c).
  - apply andb_prop in Hds as [-> Hds]. by apply IH.
Qed.

Lemma parseInt10_leading_digits `{Runtime} ds rest :
  ds ≠ [] → forallb isDigit ds = true → no_digit_ahead rest = true →
  parseInt10 (VStr (ds ++ rest))
  = Return (if (decimal ds =? 0)%Z then S754_zero false
            else number_of_Z (decimal ds)).
Proof.
  intros Hne Hds Hrest. unfold parseInt10, decimal.
  rewrite <- (digits_value_run ds rest 0%Z Hds Hrest).
  destruct ds as [|d ds]; [done|]. cbn [ToString app].
  unfold mbind, outcome_bind.
  simpl in Hds. apply andb_prop in Hds as [Hd Hds].
  assert (Hws : isWhiteSpace d = false).
  { unfold isDigit in Hd. unfold isWhiteSpace. n_bool. }
  cbn [trimStart]. rewrite Hws.
  assert (d ≠ 45 ∧ d ≠ 43) as [H45 H43].
  { unfold isDigit in Hd. split; intros ->; done. }
  destruct d as [|p]; [done|].
  do 6 (destruct p as [p|p|]; try done).
Qed.

(** X10: where the text of the rooms attribute starts with digits, the
    number of rooms is the number these digits write, and what follows them
    is dropped: for "2,5" it is 2. *)
Theorem getListingInfo_rooms_leading_digits
    `{Runtime} (body : value) (sections : list value) (top : value)
    (attrs : list value) (rooms : value) (ds rest : jsstring) :
  get body (js "sections") = Return (VArr sections) →
  find_m (Immoscout.has_type (js "TOP_ATTRIBUTES")) sections = Return top →
  truthy top = true →
  get top (js "attributes") = Return (VArr attrs) →
  find_m (Immoscout.has_label (js "Zimmer")) attrs = Return rooms →
  truthy rooms = true →
  get rooms (js "text") = Return (VStr (ds ++ rest)) →
  ds ≠ [] → forallb isDigit ds = true → no_digit_ahead rest = true →
  Immoscout.extract_roomCount body
  = Return (VNum (if (decimal ds =? 0)%Z then S754_zero false
                  else number_of_Z (decimal ds))).
Proof.
  intros Hsections Htop Httop Hattrs Hrooms Htrooms Htext Hne Hds Hrest.
  rewrite (extract_roomCount_found body sections top attrs rooms _
             Hsections Htop Httop Hattrs Hrooms Htrooms Htext).
  by rewrite parseInt10_leading_digits.
Qed.

Lemma getListingInfo_rooms_leading_digits_witness :
  @Immoscout.extract_roomCount sample_runtime half_rooms_json
  = Return (VNum (number_of_Z 2)).
Proof.
  apply (@getListingInfo_rooms_leading_digits sample_runtime half_rooms_json
           [half_rooms_section] half_rooms_section [half_rooms_attribute]
           half_rooms_attribute (js "2") (js ",5")); reflexivity || done.
Defined.

(** ** getListings, further *)

Section GetListingsMore.
Context `{Runtime}.
Import Immoscout.

Lemma to_listing_inv e l :
  to_listing e = Return l →
  ∃ item,
    get e (js "item") = Return item
    ∧ get item (js "id") = Return (field l (js "id"))
    ∧ get item (js "title") = Return (field l (js "title"))
    ∧ dom l = listing_keys
    ∧ ∃ id_text,
        ToString (field l (js "id")) = Return id_text
        ∧ l !! js "link" = Some (VStr (baseUrl ++ js "expose/" ++ id_text)).
Proof.
  unfold to_listing. unfold mbind, outcome_bind.
  destruct (get e (js "item")) as [item|]; [|done].
  destruct (get item (js "attributes")) as [attributes|]; [|done].
  destruct (destructure2 attributes) as [[price size]|]; [|done].
  destruct (get item (js "id")) as [id|] eqn:Hid; [|done].
  destruct (opt_get price (js "value")) as [price_value|]; [|done].
  destruct (opt_get size (js "value")) as [size_value|]; [|done].
  destruct (get item (js "title")) as [title|] eqn:Htitle; [|done].
  destruct (ToString id) as [id_text|] eqn:Htext; [|done].
  destruct (get item (js "address")) as [address|]; [|done].
  destruct (opt_get address (js "line")) as [line|]; [|done].
  intros Hl.
  pose proof (f_equal (fun o => match o with Return x => x | Throw _ => l end) Hl)
    as Hl'.
  cbv beta iota in Hl'. subst l. clear Hl.
  exists item. split; [done|].
  unfold field, list_to_map. cbn [foldr fst snd].
  rewrite lookup_insert_eq.
  rewrite (lookup_insert_ne _ (js "id") (js "title")) by js_neq.
  rewrite (lookup_insert_ne _ (js "price") (js "title")) by js_neq.
  rewrite (lookup_insert_ne _ (js "size") (js "title")) by js_neq.
  rewrite lookup_insert_eq. cbn [default].
  split; [done|]. split; [done|]. split.
  - rewrite !dom_insert_L, dom_empty_L. unfold listing_keys.
    cbn [list_to_set foldr]. set_solver.
  - exists id_text. split; [done|].
    rewrite (lookup_insert_ne _ (js "id") (js "link")) by js_neq.
    rewrite (lookup_insert_ne _ (js "price") (js "link")) by js_neq.
    rewrite (lookup_insert_ne _ (js "size") (js "link")) by js_neq.
    rewrite (lookup_insert_ne _ (js "title") (js "link")) by js_neq.
    by rewrite lookup_insert_eq.
Qed.

Lemma filter_m_inv items exposes :
  filter_m (has_type (js "EXPOSE_RESULT")) items = Return exposes →
  exposes = List.filter is_expose items.
Proof.
  revert exposes. induction items as [|e items IH]; intros exposes; simpl.
  - by intros [= <-].
  - unfold_outcome. unfold has_type, is_expose. unfold_outcome.
    destruct (get e (js "type")) as [type|]; [|done].
    destruct (filter_m _ items) as [rest|]; [|done].
    intros [= <-]. rewrite (IH rest eq_refl). by case_if.
Qed.

Lemma map_m_Forall2 {A B : Type} (cb : A → outcome B) l r :
  map_m cb l = Return r → Forall2 (fun x y => cb x = Return y) l r.
Proof.
  revert r. induction l as [|x l IH]; intros r; simpl.
  - intros [= <-]. constructor.
  - unfold_outcome. destruct (cb x) as [y|] eqn:Hy; [|done].
    destruct (map_m cb l) as [rest|]; [|done].
    intros [= <-]. constructor; [done|]. by apply IH.
Qed.
End GetListingsMore.

(** X11: where [getListings] returns, it returns one listing for each
    entry of type [EXPOSE_RESULT], in the order of the answer; a listing
    carries the [id] and the [title] of the entry's [item], has exactly the
    properties id, price, size, title, link and address, and its link is
    the base URL, [expose/] and the id. *)
Theorem getListings_one_listing_per_expose
    `{Runtime} (url : jsstring) (resp : response) (body : value) (items : list value)
    (listings : list object) (t : list event) :
  network (Immoscout.search_request url) = Some resp →
  resp_ok resp = true →
  resp_json resp = Return body →
  get body (js "resultListItems") = Return (VArr items) →
  run (Immoscout.getListings url) = (Return listings, t) →
  Forall2 (fun e (l : object) =>
             ∃ item,
               get e (js "item") = Return item
               ∧ get item (js "id") = Return (field l (js "id"))
               ∧ get item (js "title") = Return (field l (js "title"))
               ∧ dom l = listing_keys
               ∧ ∃ id_text,
                   ToString (field l (js "id")) = Return id_text
                   ∧ l !! js "link"
                     = Some (VStr (Immoscout.baseUrl ++ js "expose/" ++ id_text)))
    (List.filter is_expose items) listings.
Proof.
  intros Hnet Hok Hjson Hitems.
  unfold Immoscout.getListings. unfold_io.
  rewrite Hnet, Hok. simpl. rewrite Hjson, Hitems. simpl.
  destruct (filter_m _ items) as [exposes|] eqn:Hfilter; [|done].
  apply filter_m_inv in Hfilter as ->.
  destruct (map_m Immoscout.to_listing _) as [ls|] eqn:Hmap; [|done].
  intros [= <- <-].
  apply map_m_Forall2 in Hmap.
  eapply Forall2_impl; [exact Hmap|].
  intros e l Hl. by apply to_listing_inv.
Qed.

Lemma getListings_one_listing_per_expose_witness :
  ∃ l,
    (run (@Immoscout.getListings search_runtime search_url)).1 = Return [l]
    ∧ field l (js "id") = VStr (js "158382494")
    ∧ l !! js "link"
      = Some (VStr (js "https://www.immobilienscout24.de/expose/158382494")).
Proof.
  assert (Hrun : run (@Immoscout.getListings search_runtime search_url)
                 = (Return [sample_listing],
                    [Fetch (@Immoscout.search_request search_url)]))
    by reflexivity.
  pose proof (@getListings_one_listing_per_expose search_runtime search_url
                (mkResponse true 200 (js "OK") (Return sample_search_json))
                sample_search_json sample_search_items [sample_listing] _
                eq_refl eq_refl eq_refl eq_refl Hrun) as Hall.
  exists sample_listing. split; [by rewrite Hrun|].
  apply Forall2_cons_1 in Hall
    as [(item & Hitem & Hid & _ & _ & id_text & Htext & Hlink) _].
  split; [reflexivity|]. rewrite Hlink.
  apply (f_equal (fun o => match o with Return x => x | Throw _ => [] end)) in Htext.
  cbv beta iota in Htext. by rewrite <- Htext.
Defined.

(** X12: [getListings] makes exactly one request, the search with the
    default headers, whatever becomes of it: a request that fails and a
    body that is not JSON are thrown on to the caller, and only a failure
    status is printed. *)
Theorem getListings_single_request `{Runtime} (url : jsstring) :
  network_calls (run (Immoscout.getListings url)).2
  = [Fetch (Immoscout.search_request url)]
  ∧ (network (Immoscout.search_request url) = None →
     (run (Immoscout.getListings url)).1 = Throw NetworkError)
  ∧ (∀ resp e,
       network (Immoscout.search_request url) = Some resp →
       resp_ok resp = true → resp_json resp = Throw e →
       (run (Immoscout.getListings url)).1 = Throw e)
  ∧ (console_errors (run (Immoscout.getListings url)).2 ≠ []
     ↔ ∃ resp, network (Immoscout.search_request url) = Some resp
               ∧ resp_ok resp = false).
Proof.
  unfold Immoscout.getListings. unfold_io.
  destruct (network (Immoscout.search_request url)) as [resp|] eqn:Hnet.
  2: { split; [done|]. split; [done|]. split; [done|].
       split; [done|]. by intros (? & ? & _). }
  destruct (resp_ok resp) eqn:Hok; simpl.
  2: { split; [done|]. split; [done|].
       split; [intros ? ? [= <-]; congruence|].
       split; [by exists resp|done]. }
  assert (Hnot : ¬ ∃ resp0, Some resp = Some resp0 ∧ resp_ok resp0 = false).
  { intros (? & [= <-] & ?). congruence. }
  destruct (resp_json resp) as [body|e'] eqn:Hjson.
  2: { split; [done|]. split; [done|].
       split; [intros ? ? [= <-] _ ?; simpl; congruence|].
       split; [done|]. intros ?. by destruct Hnot. }
  match goal with
  | |- context [(?o, [Fetch ?r])] => generalize o
  end.
  intros o. simpl.
  split; [done|]. split; [done|].
  split; [intros ? ? [= <-] _ ?; congruence|].
  split; [done|]. intros ?. by destruct Hnot.
Qed.

(** ** Numbers: the length of a string is not zero unless the string is
    empty *)

Section Lengths.
Local Open Scope Z_scope.

Lemma digits2_pos_bounds m :
  2 ^ (Zpos (digits2_pos m) - 1) <= Zpos m < 2 ^ Zpos (digits2_pos m).
Proof.
  induction m as [m IH|m IH|]; simpl digits2_pos; [| |simpl; lia];
    rewrite Pos2Z.inj_succ;
    replace (Z.succ (Zpos (digits2_pos m)) - 1) with (Z.succ (Zpos (digits2_pos m) - 1)) by lia;
    rewrite !Z.pow_succ_r by lia;
    revert IH;
    generalize (2 ^ (Zpos (digits2_pos m) - 1)), (2 ^ Zpos (digits2_pos m));
    intros; lia.
Qed.

Lemma digits2_pos_iter_xO m k :
  digits2_pos (Pos.iter xO m k) = (digits2_pos m + k)%positive.
Proof.
  induction k as [|k IH] using Pos.peano_ind.
  - simpl. lia.
  - rewrite Pos.iter_succ. simpl. rewrite IH. lia.
Qed.

Lemma binary_round_aux_exact mz ez :
  Zpos (digits2_pos mz) = 53 → -1074 <= ez <= 971 →
  binary_round_aux 53 1024 false (Zpos mz) ez loc_Exact = S754_finite false mz ez.
Proof.
  intros Hd He.
  assert (Hshift : fexp 53 1024 (Zdigits2 (Zpos mz) + ez) - ez = 0).
  { simpl Zdigits2. rewrite Hd. unfold fexp, emin. lia. }
  unfold binary_round_aux, shr_fexp. rewrite Hshift. cbn [shr shr_record_of_loc].
  cbn [shr_m loc_of_shr_record round_nearest_even]. rewrite Hshift.
  cbn [shr shr_record_of_loc shr_m].
  destruct (Z.leb_spec ez (1024 - 53)); [done|lia].
Qed.

(** A positive integer below 2^53 is a finite number that is not zero. *)
Lemma number_of_Z_small m :
  Zpos m < 2 ^ 53 → ∃ m' e, number_of_Z (Zpos m) = S754_finite false m' e.
Proof.
  intros Hm. pose proof (digits2_pos_bounds m) as [Hlo _].
  assert (Hd : Zpos (digits2_pos m) <= 53).
  { destruct (Z_le_gt_dec (Zpos (digits2_pos m)) 53) as [|Hgt]; [done|].
    assert (2 ^ 53 <= 2 ^ (Zpos (digits2_pos m) - 1)) by (apply Z.pow_le_mono_r; lia).
    lia. }
  unfold number_of_Z, binary_normalize, binary_round.
  assert (Hfexp : fexp 53 1024 (Zpos (digits2_pos m) + 0) = Zpos (digits2_pos m) - 53).
  { unfold fexp, emin. lia. }
  rewrite Hfexp. unfold shl_align.
  destruct (Zpos (digits2_pos m) - 53 - 0) as [|p|p] eqn:Hp.
  - eexists _, _. apply binary_round_aux_exact; lia.
  - lia.
  - eexists _, _. apply binary_round_aux_exact; [|lia].
    rewrite digits2_pos_iter_xO. lia.
Qed.

Lemma length_not_zero {A : Type} (x : A) (l : list A) :
  js_length (length (x :: l)) →
  is_zero (VNum (number_of_Z (Z.of_nat (length (x :: l))))) = false.
Proof.
  unfold js_length. intros Hlen.
  destruct (Z.of_nat (length (x :: l))) as [|m|m] eqn:Hm; [done| |lia].
  by destruct (number_of_Z_small m Hlen) as (m' & e & ->).
Qed.
End Lengths.

(** ** nullOrEmpty and normalize, further *)

Lemma nullOrEmpty_counts_as_empty v :
  well_sized v → Immoscout.nullOrEmpty v = Return (counts_as_empty v).
Proof.
  intros Hsize. unfold Immoscout.nullOrEmpty.
  destruct v as [| |b|n|s|l|fields]; try done.
  - destruct s as [|c s]; [done|].
    pose proof (length_not_zero c s Hsize) as Hz.
    simpl in *. unfold_outcome. by rewrite Hz.
  - destruct l as [|x l]; [done|].
    pose proof (length_not_zero x l Hsize) as Hz.
    simpl in *. unfold_outcome. by rewrite Hz.
Qed.

(** X13: [nullOrEmpty] never throws; it holds of null, of undefined and
    of a value whose [length] is zero (the empty string, the empty array),
    and of nothing else: a number or a boolean is not empty. *)
Theorem nullOrEmpty_null_or_zero_length (v : value) :
  well_sized v →
  Immoscout.nullOrEmpty v = Return (counts_as_empty v).
Proof. apply nullOrEmpty_counts_as_empty. Qed.

Lemma nullOrEmpty_null_or_zero_length_witness :
  Immoscout.nullOrEmpty (VStr (js " ")) = Return false
  ∧ Immoscout.nullOrEmpty (VNum (S754_zero false)) = Return false.
Proof.
  split.
  - apply (nullOrEmpty_null_or_zero_length (VStr (js " "))).
    vm_compute. reflexivity.
  - by apply (nullOrEmpty_null_or_zero_length (VNum (S754_zero false))).
Defined.

(** *** The title: the first "NEU" goes *)

Lemma starts_with_prefix p s : starts_with p s = true ↔ ∃ b, s = p ++ b.
Proof.
  revert s. induction p as [|a p IH]; intros s; simpl.
  - split; [by exists s|done].
  - destruct s as [|c s]; [split; [done|by intros [? ?]]|].
    rewrite andb_true_iff, N.eqb_eq, IH. split.
    + intros [-> [b ->]]. by exists b.
    + intros [b [= -> ->]]. split; [done|by exists b].
Qed.

Lemma occurs_split pat s : occurs pat s = true ↔ ∃ a b, s = a ++ pat ++ b.
Proof.
  induction s as [|c s IH]; simpl.
  - rewrite orb_false_r, starts_with_prefix. split.
    + intros [b Hb]. by exists [], b.
    + intros (a & b & Hs). destruct a; [by exists b|done].
  - rewrite orb_true_iff, starts_with_prefix, IH. split.
    + intros [[b Hb]|(a & b & ->)]; [by exists [], b|by exists (c :: a), b].
    + intros (a & b & Hs). destruct a as [|c' a]; [left; by exists b|].
      injection Hs as -> ->. right. by exists a, b.
Qed.

Lemma replace_first_absent pat rep s :
  occurs pat s = false → replace_first pat rep s = s.
Proof.
  induction s as [|c s IH]; simpl.
  - by intros [-> _]%orb_false_iff.
  - intros [-> Ho]%orb_false_iff. f_equal. by apply IH.
Qed.

Lemma replace_first_NEU a b :
  occurs (js "NEU") (a ++ js "NE") = false →
  replace_first (js "NEU") [] (a ++ js "NEU" ++ b) = a ++ b.
Proof.
  change (js "NEU") with [78; 69; 85]. change (js "NE") with [78; 69].
  induction a as [|c a IH]; [done|].
  cbn [app occurs]. intros [Hs Ho]%orb_false_iff.
  cbn [replace_first].
  assert (Hs' : starts_with [78; 69; 85] (c :: a ++ [78; 69; 85] ++ b) = false).
  { destruct a as [|d [|e a]]; simpl in *.
    - by rewrite andb_false_r.
    - by rewrite !andb_false_r.
    - done. }
  cbn [app] in Hs', IH. rewrite Hs'. f_equal. by apply IH.
Qed.

(** *** White space at the ends *)

Lemma trimStart_split s :
  ∃ w, s = w ++ trimStart s ∧ forallb isWhiteSpace w = true.
Proof.
  induction s as [|c s (w & Hs & Hw)]; [by exists []|]. simpl.
  destruct (isWhiteSpace c) eqn:Hc; [|by exists []].
  exists (c :: w). simpl. rewrite Hc, Hw. split; [by f_equal|done].
Qed.

Lemma trimStart_head s c r : trimStart s = c :: r → isWhiteSpace c = false.
Proof.
  induction s as [|x s IH]; [done|]. simpl.
  destruct (isWhiteSpace x) eqn:Hx; [done|]. by intros [= <- _].
Qed.

Lemma trimEnd_snoc r c : isWhiteSpace c = false → trimEnd (r ++ [c]) = r ++ [c].
Proof.
  intros Hc. unfold trimEnd. rewrite rev_app_distr. simpl. rewrite Hc.
  simpl. by rewrite rev_involutive.
Qed.

Lemma trimEnd_split s :
  ∃ w, s = trimEnd s ++ w ∧ forallb isWhiteSpace w = true.
Proof.
  unfold trimEnd. destruct (trimStart_split (rev s)) as (w & Hs & Hw).
  exists (rev w). split.
  - rewrite <- rev_app_distr, <- Hs. by rewrite rev_involutive.
  - apply forallb_forall. intros x Hx%in_rev.
    by apply (proj1 (forallb_forall _ _) Hw).
Qed.

Lemma trimEnd_last s r c : trimEnd s = r ++ [c] → isWhiteSpace c = false.
Proof.
  unfold trimEnd. intros Hs.
  apply (f_equal (@rev N)) in Hs. rewrite rev_involutive, rev_app_distr in Hs.
  by apply trimStart_head in Hs.
Qed.

Lemma trim_no_outer_space s : no_outer_space (trim s) = true.
Proof.
  unfold trim, no_outer_space.
  destruct (trimEnd (trimStart s)) as [|c r] eqn:Hend; [done|].
  destruct (trimEnd_split (trimStart s)) as (w & Hs & _).
  rewrite Hend in Hs. simpl in Hs.
  rewrite (trimStart_head _ _ _ Hs). cbn [negb andb].
  destruct (exists_last (l := c :: r) ltac:(done)) as (r' & c' & Hlast).
  rewrite Hlast, last_last. rewrite Hlast in Hend.
  by rewrite (trimEnd_last _ _ _ Hend).
Qed.

Lemma no_outer_space_trim s : no_outer_space s = true → trim s = s.
Proof.
  unfold no_outer_space, trim. destruct s as [|c r]; [done|].
  intros [Hc Hlast]%andb_prop. apply negb_true_iff in Hc, Hlast.
  cbn [trimStart]. rewrite Hc.
  destruct (exists_last (l := c :: r) ltac:(done)) as (r' & c' & Hs).
  rewrite Hs in *. rewrite last_last in Hlast. by apply trimEnd_snoc.
Qed.

Lemma trim_idempotent s : trim (trim s) = trim s.
Proof. apply no_outer_space_trim, trim_no_outer_space. Qed.

Lemma trim_all_space s : forallb isWhiteSpace s = true → trim s = [].
Proof.
  intros Hs. unfold trim.
  assert (Hstart : trimStart s = []).
  { induction s as [|c s IH]; [done|]. simpl in *.
    apply andb_prop in Hs as [-> Hs]. by apply IH. }
  by rewrite Hstart.
Qed.

(** *** The address: what the pattern cuts *)

Lemma parenthesis_tail_shape rest :
  parenthesis_tail rest = true ↔
  ∃ w1 w2, rest = 40 :: w1 ++ 41 :: 44 :: w2
           ∧ forallb isDot w1 = true ∧ forallb isDot w2 = true.
Proof.
  unfold parenthesis_tail. split.
  - destruct rest as [|c rest]; [done|].
    destruct (N.eqb_spec c 40) as [->|Hc].
    + intros [Hdot (w1 & w2 & ->)%occurs_split]%andb_prop.
      rewrite forallb_app in Hdot. apply andb_prop in Hdot as [H1 H2].
      simpl in H2. by exists w1, w2.
    + destruct c as [|p]; [done|].
      do 6 (destruct p as [p|p|]; try done).
  - intros (w1 & w2 & -> & H1 & H2).
    rewrite forallb_app, H1. simpl. rewrite H2. simpl.
    apply occurs_split. by exists w1, w2.
Qed.

Lemma addressPattern_steps input s s' caps' :
  steps false input Immoscout.addressPattern s [] s' caps'
  ↔ s' = [] ∧ caps' = [] ∧ parenthesis_tail s = true.
Proof.
  rewrite parenthesis_tail_shape.
  unfold Immoscout.addressPattern. cbn [steps char_eq]. split.
  - intros (m5 & c5 & (m4 & c4 & (m3 & c3 & (m2 & c2 & (m1 & c1
             & (x1 & -> & ->%N.eqb_eq & ->)
             & (w1 & -> & H1 & ->))
             & (x2 & -> & ->%N.eqb_eq & ->))
             & (x3 & -> & ->%N.eqb_eq & ->))
             & (w2 & -> & H2 & ->))
             & (-> & -> & ->)).
    split; [done|]. split; [done|]. exists w1, w2. by rewrite app_nil_r.
  - intros (-> & -> & w1 & w2 & -> & H1 & H2).
    exists [], []. split; [|done].
    exists w2, []. split; [|by exists w2; rewrite app_nil_r].
    exists (44 :: w2), []. split; [|by exists 44].
    exists (41 :: 44 :: w2), []. split; [|by exists 41].
    exists (w1 ++ 41 :: 44 :: w2), []. split; [by exists 40|by exists w1].
Qed.

Lemma match_here_address input before s :
  match_here false Immoscout.addressPattern input before s
  = if parenthesis_tail s then Some (MatchResult before s [] []) else None.
Proof.
  destruct (match_here false _ input before s) as [m|] eqn:Hm.
  - apply match_here_sound in Hm
      as (s' & caps' & (-> & -> & ->)%addressPattern_steps & ->).
    simpl. by rewrite Nat.sub_0_r, firstn_all.
  - destruct (parenthesis_tail s) eqn:Htail; [|done].
    assert (Hsome : is_Some (match_here false Immoscout.addressPattern input before s)).
    { unfold match_here. eapply rmatch_complete; [|done].
      by apply addressPattern_steps. }
    rewrite Hm in Hsome. by destruct Hsome.
Qed.

Lemma exec_from_address input before s :
  match exec_from false Immoscout.addressPattern input before s with
  | Some m => m_before m ++ [] ++ m_after m
  | None => before ++ s
  end = before ++ cut_address s.
Proof.
  revert before. induction s as [|c s IH]; intros before.
  - cbn [exec_from cut_address]. rewrite match_here_address. done.
  - cbn [exec_from cut_address]. rewrite match_here_address.
    destruct (parenthesis_tail (c :: s)); [done|].
    replace (before ++ c :: s) with ((before ++ [c]) ++ s)
      by (by rewrite <- app_assoc).
    rewrite IH. by rewrite <- app_assoc.
Qed.

Lemma replace_address_cut s :
  replace_regex false Immoscout.addressPattern [] s = cut_address s.
Proof.
  unfold replace_regex, exec. apply (exec_from_address s [] s).
Qed.

Lemma cut_address_first s :
  ∃ rest,
    s = cut_address s ++ rest
    ∧ (rest = [] ∨ parenthesis_tail rest = true)
    ∧ ∀ before' rest',
        s = before' ++ rest' → parenthesis_tail rest' = true →
        rest ≠ [] ∧ (length (cut_address s) ≤ length before')%nat.
Proof.
  induction s as [|c s (rest & Hs & Hrest & Hfirst)].
  - exists []. split; [done|]. split; [by left|].
    intros before' rest' Heq. symmetry in Heq.
    apply app_eq_nil in Heq as [_ ->]. done.
  - cbn [cut_address]. destruct (parenthesis_tail (c :: s)) eqn:Htail.
    + exists (c :: s). split; [done|]. split; [by right|].
      intros. split; [done|simpl; lia].
    + exists rest. split; [simpl; by f_equal|]. split; [done|].
      intros before' rest' Heq Htail'.
      destruct before' as [|c' before']; simpl in Heq; [congruence|].
      injection Heq as <- Heq.
      destruct (Hfirst before' rest' Heq Htail') as [Hne Hle].
      split; [done|simpl; lia].
Qed.

Lemma cut_address_all_space s :
  forallb isWhiteSpace s = true → cut_address s = s.
Proof.
  induction s as [|c s IH]; [done|]. simpl.
  intros [Hc Hs]%andb_prop.
  destruct c as [|p]; [done|].
  by do 6 (destruct p as [p|p|]; try done; try (f_equal; by apply IH)).
Qed.

Lemma title_of_string s :
  s ≠ [] → js_length (length s) →
  Immoscout.title_of (VStr s) = Return (VStr (replace_first (js "NEU") [] s)).
Proof.
  intros Hne Hlen. unfold Immoscout.title_of.
  rewrite (nullOrEmpty_counts_as_empty (VStr s) Hlen).
  by destruct s.
Qed.

Lemma address_of_string s :
  s ≠ [] → js_length (length s) →
  Immoscout.address_of (VStr s) = Return (VStr (trim (cut_address s))).
Proof.
  intros Hne Hlen. unfold Immoscout.address_of.
  rewrite (nullOrEmpty_counts_as_empty (VStr s) Hlen).
  destruct s as [|c s]; [done|].
  unfold_outcome. by rewrite replace_address_cut.
Qed.

Lemma title_of_bad v :
  well_sized v →
  if bad_title v then Immoscout.title_of v = Throw TypeError
  else ∃ s, Immoscout.title_of v = Return (VStr s).
Proof.
  intros Hsize. unfold Immoscout.title_of, bad_title.
  rewrite (nullOrEmpty_counts_as_empty v Hsize).
  destruct (counts_as_empty v) eqn:Hempty; [by eexists|].
  destruct v; try done. by eexists.
Qed.

Lemma address_of_bad v :
  well_sized v →
  if bad_address v then Immoscout.address_of v = Throw TypeError
  else ∃ s, Immoscout.address_of v = Return (VStr s).
Proof.
  intros Hsize. unfold Immoscout.address_of, bad_address, bad_title.
  rewrite (nullOrEmpty_counts_as_empty v Hsize).
  destruct (counts_as_empty v) eqn:Hempty; [by eexists|].
  unfold js_or. destruct (truthy v) eqn:Htruthy.
  - destruct v; try done. by eexists.
  - rewrite andb_false_r. by eexists.
Qed.

(** X14: the title [normalize] computes from a string that is not empty
    is the string without its first "NEU": a string without one is kept as
    it is, what comes before and after the first one is kept, and so is a
    second "NEU". *)
Theorem normalize_title_first_NEU (s : jsstring) :
  s ≠ [] → js_length (length s) →
  (occurs (js "NEU") s = false → Immoscout.title_of (VStr s) = Return (VStr s))
  ∧ (∀ a b,
       s = a ++ js "NEU" ++ b →
       occurs (js "NEU") (a ++ js "NE") = false →
       Immoscout.title_of (VStr s) = Return (VStr (a ++ b))).
Proof.
  intros Hne Hlen. rewrite (title_of_string s Hne Hlen). split.
  - intros Ho. by rewrite replace_first_absent.
  - intros a b -> Ho. by rewrite replace_first_NEU.
Qed.

Lemma normalize_title_first_NEU_witness :
  Immoscout.title_of (VStr (js "NEU Altbau, NEU saniert"))
  = Return (VStr (js " Altbau, NEU saniert")).
Proof.
  refine (proj2 (normalize_title_first_NEU (js "NEU Altbau, NEU saniert") _ _)
            [] (js " Altbau, NEU saniert") _ _);
    [done|vm_compute; reflexivity|reflexivity|reflexivity].
Defined.

(** X15: the address [normalize] computes from a string that is not
    empty is the string cut at the first place from which on it reads as an
    opening parenthesis, a closing parenthesis with a comma, and no line
    break up to its end; what is kept is trimmed, so that it neither
    starts nor ends with white space. *)
Theorem normalize_address_cut_and_trimmed (s : jsstring) :
  s ≠ [] → js_length (length s) →
  ∃ before rest,
    s = before ++ rest
    ∧ Immoscout.address_of (VStr s) = Return (VStr (trim before))
    ∧ no_outer_space (trim before) = true
    ∧ (rest = [] ∨ parenthesis_tail rest = true)
    ∧ ∀ before' rest',
        s = before' ++ rest' → parenthesis_tail rest' = true →
        rest ≠ [] ∧ (length before ≤ length before')%nat.
Proof.
  intros Hne Hlen.
  destruct (cut_address_first s) as (rest & Hs & Hrest & Hfirst).
  exists (cut_address s), rest. split; [done|].
  split; [by apply address_of_string|].
  split; [apply trim_no_outer_space|]. by split.
Qed.

Lemma normalize_address_cut_and_trimmed_witness :
  ∃ before rest,
    js "Torstr. 1 (Mitte), Berlin" = before ++ rest
    ∧ Immoscout.address_of (VStr (js "Torstr. 1 (Mitte), Berlin"))
      = Return (VStr (trim before))
    ∧ no_outer_space (trim before) = true
    ∧ (rest = [] ∨ parenthesis_tail rest = true).
Proof.
  destruct (normalize_address_cut_and_trimmed (js "Torstr. 1 (Mitte), Berlin"))
    as (before & rest & Hs & Haddress & Htrim & Hrest & _);
    [done|vm_compute; reflexivity|].
  by exists before, rest.
Defined.

(** X16: the address [normalize] computes can be the empty string: a
    string of white space only, and a string that is a parenthesis part
    from its first character on, give the empty string and not
    'NO ADDRESS FOUND'. *)
Theorem normalize_address_can_be_empty (s : jsstring) :
  s ≠ [] → js_length (length s) →
  forallb isWhiteSpace s = true ∨ parenthesis_tail s = true →
  Immoscout.address_of (VStr s) = Return (VStr []).
Proof.
  intros Hne Hlen Hs. rewrite (address_of_string s Hne Hlen).
  destruct Hs as [Hspace|Htail].
  - by rewrite (cut_address_all_space s Hspace), (trim_all_space s Hspace).
  - destruct s as [|c s]; [done|]. cbn [cut_address]. by rewrite Htail.
Qed.

Lemma normalize_address_can_be_empty_witness :
  Immoscout.address_of (VStr (js "(Mitte), Berlin")) = Return (VStr [])
  ∧ Immoscout.address_of (VStr (js "  ")) = Return (VStr []).
Proof.
  split.
  - apply (normalize_address_can_be_empty (js "(Mitte), Berlin"));
      [done|vm_compute; reflexivity|by right].
  - apply (normalize_address_can_be_empty (js "  "));
      [done|vm_compute; reflexivity|by left].
Defined.

(** X17: [normalize] throws exactly when the title is neither empty nor
    a string, or the address is neither empty nor falsy nor a string; what
    it throws is a [TypeError], and the listing is left as it was. *)
Theorem normalize_throws_iff `{Runtime} (o : nat) (h : heap) (obj : object) :
  h !! o = Some obj →
  well_sized (field obj (js "title")) →
  well_sized (field obj (js "address")) →
  if bad_title (field obj (js "title")) || bad_address (field obj (js "address"))
  then Immoscout.normalize o h = (Throw TypeError, h)
  else ∃ h', Immoscout.normalize o h = (Return o, h').
Proof.
  intros Hobj Htitle Haddress.
  pose proof (title_of_bad _ Htitle) as Ht.
  pose proof (address_of_bad _ Haddress) as Ha.
  unfold Immoscout.normalize, Immoscout.normalized_fields. rewrite Hobj.
  destruct (bad_title _).
  - by rewrite Ht.
  - destruct Ht as [t ->]. unfold_outcome.
    destruct (bad_address _).
    + by rewrite Ha.
    + destruct Ha as [a ->]. by eexists.
Qed.

Lemma normalize_throws_iff_witness :
  @Immoscout.normalize sample_runtime 0%nat numeric_title_heap
  = (Throw TypeError, numeric_title_heap).
Proof.
  apply (@normalize_throws_iff sample_runtime 0%nat numeric_title_heap
           numeric_title_listing); [reflexivity|done|vm_compute; reflexivity].
Defined.

(** ** The notification registry, further *)

(** X18: of two adapters registered under one id the first is the one
    [findAdapter] gives and [send] calls; a later one is never reached. *)
Theorem findAdapter_first_registered
    {Listing R : Type} (before after : list (@Notification.adapter Listing R))
    (a : Notification.adapter) (e : Notification.channel)
    (serviceName : jsstring) (newListings : list Listing) (jobKey : jsstring) :
  Notification.config_id a = Notification.ch_id e →
  (∀ b, b ∈ before → Notification.config_id b ≠ Notification.ch_id e) →
  Notification.findAdapter (before ++ a :: after) e = Some a
  ∧ Notification.send (before ++ a :: after) serviceName newListings [e] jobKey
    = Return [Notification.adapter_send a
                (Notification.mkPayload serviceName newListings [e] jobKey)].
Proof.
  intros Ha Hbefore.
  assert (Hfind : Notification.findAdapter (before ++ a :: after) e = Some a).
  { unfold Notification.findAdapter.
    induction before as [|b before IH]; simpl.
    - by rewrite bool_decide_eq_true_2.
    - rewrite bool_decide_eq_false_2 by (apply Hbefore; left).
      apply IH. intros b' Hb'. apply Hbefore. by right. }
  split; [done|].
  unfold Notification.send. simpl. rewrite Hfind. simpl. by rewrite Hfind.
Qed.

Lemma findAdapter_first_registered_witness :
  Notification.send shadowed_adapters (js "immoscout") [1%nat]
    [Notification.mkChannel (js "slack") []] (js "job-1")
  = Return [js "first"].
Proof.
  refine (proj2 (findAdapter_first_registered (Listing := nat) (R := jsstring) []
                   [Notification.mkAdapter (js "slack") (fun _ => js "second");
                    Notification.mkAdapter (js "mailjet") (fun _ => js "third")]
                   (Notification.mkAdapter (js "slack") (fun _ => js "first"))
                   (Notification.mkChannel (js "slack") [])
                   (js "immoscout") [1%nat] (js "job-1") _ _)).
  - reflexivity.
  - intros b Hb. by apply not_elem_of_nil in Hb.
Defined.

(** ** parseSalutation, further *)

Lemma str_match_empty :
  str_match true malePattern 3 [] = None ∧ str_match true femalePattern 3 [] = None.
Proof. split; reflexivity. Qed.

Lemma parseSalutation_trim s :
  Immoscout.parseSalutation (VStr s) = Immoscout.parseSalutation (VStr (trim s)).
Proof.
  destruct s as [|c s]; [done|].
  rewrite (parseSalutation_string (c :: s)) by done.
  destruct (trim (c :: s)) as [|c' s'] eqn:Htrim.
  - destruct str_match_empty as [-> ->]. done.
  - rewrite (parseSalutation_string (c' :: s')) by done.
    by rewrite <- Htrim, trim_idempotent.
Qed.

(** X19: [parseSalutation] answers with a salutation exactly for a string
    whose trimmed text is an honorific, a white space character, a name
    token and at most one more of both; the gender is that of the
    honorific and the last name is the first name token. *)
Theorem parseSalutation_answer (v : value) (sal : Salutation) :
  Immoscout.parseSalutation v = Some sal
  ↔ ∃ s h ws t1 second,
      v = VStr s
      ∧ trim s = salutation_text h ws t1 second
      ∧ salutation_parts (honorifics_of (gender sal)) h ws t1 second = true
      ∧ lastName sal = VStr t1.
Proof.
  split.
  - intros (s & h & ws & t1 & second & -> & Htrim & Hname & Hparts)%parseSalutation_inv.
    exists s, h, ws, t1, second. split; [done|]. split; [done|].
    split; [|done]. by destruct Hparts as [[-> ?]|[-> ?]].
  - intros (s & h & ws & t1 & second & -> & Htrim & Hparts & Hname).
    destruct sal as [g name]. simpl in *. subst name.
    destruct g.
    + by apply (parseSalutation_male s h ws t1 second).
    + by apply (parseSalutation_female s h ws t1 second).
Qed.

Lemma trimStart_space_app w x :
  forallb isWhiteSpace w = true → trimStart (w ++ x) = trimStart x.
Proof.
  induction w as [|c w IH]; [done|]. simpl.
  intros [-> Hw]%andb_prop. by apply IH.
Qed.

Lemma trimStart_app x y c r :
  trimStart x = c :: r → trimStart (x ++ y) = (c :: r) ++ y.
Proof.
  induction x as [|a x IH]; [done|]. simpl.
  destruct (isWhiteSpace a); [done|]. by intros [= <- <-].
Qed.

Lemma trimEnd_app_space x w :
  forallb isWhiteSpace w = true → trimEnd (x ++ w) = trimEnd x.
Proof.
  intros Hw. unfold trimEnd. rewrite rev_app_distr.
  rewrite trimStart_space_app; [done|].
  apply forallb_forall. intros c Hc%in_rev.
  by apply (proj1 (forallb_forall _ _) Hw).
Qed.

Lemma trim_outer_space before s after :
  forallb isWhiteSpace before = true → forallb isWhiteSpace after = true →
  trim (before ++ s ++ after) = trim s.
Proof.
  intros Hbefore Hafter. unfold trim at 1.
  rewrite (trimStart_space_app before _ Hbefore).
  destruct (trimStart s) as [|c r] eqn:Hstart.
  - destruct (trimStart_split s) as (w & Hs & Hw).
    rewrite Hstart, app_nil_r in Hs. subst w.
    rewrite (trim_all_space s Hw).
    apply (trim_all_space (s ++ after)).
    by rewrite forallb_app, Hw, Hafter.
  - rewrite (trimStart_app s after c r Hstart).
    rewrite (trimEnd_app_space _ after Hafter).
    unfold trim. by rewrite Hstart.
Qed.

(** X20: white space around the name does not count: [parseSalutation]
    answers for a string with white space before and after it what it
    answers for the string, and so for its trimmed text. *)
Theorem parseSalutation_ignores_outer_space (before s after : jsstring) :
  forallb isWhiteSpace before = true → forallb isWhiteSpace after = true →
  Immoscout.parseSalutation (VStr (before ++ s ++ after))
  = Immoscout.parseSalutation (VStr s)
  ∧ Immoscout.parseSalutation (VStr s) = Immoscout.parseSalutation (VStr (trim s)).
Proof.
  intros Hbefore Hafter. split; [|apply parseSalutation_trim].
  rewrite (parseSalutation_trim (before ++ s ++ after)), (parseSalutation_trim s).
  by rewrite trim_outer_space.
Qed.

Lemma parseSalutation_ignores_outer_space_witness :
  Immoscout.parseSalutation (VStr (js "  " ++ js "Herr Mustermann" ++ [10; 32]))
  = Immoscout.parseSalutation (VStr (js "Herr Mustermann")).
Proof.
  apply (parseSalutation_ignores_outer_space (js "  ") (js "Herr Mustermann") [10; 32]);
    reflexivity.
Defined.

Lemma male_with_two_names_salutation h ws t1 second :
  salutation_parts male_honorifics h ws t1 second = true →
  male_with_two_names (salutation_text h ws t1 second)
  = match second with
    | Some _ => true
    | None => false
    end.
Proof.
  intros Hparts. unfold male_with_two_names.
  pose proof Hparts as (Hh & Hws & Ht1 & Hsecond)%salutation_parts_inv.
  rewrite (split_ws_salutation h ws t1 second
             (honorific_in_is_honorific _ _ (or_introl eq_refl) Hh) Hws Ht1 Hsecond).
  destruct second as [[ws' t2]|]; [|done].
  simpl in Hsecond. apply andb_prop in Hsecond as [_ Ht2].
  by rewrite Hh, Ht1, Ht2.
Qed.

(** X21: the two versions of [parseSalutation] agree, on every value but
    a string whose trimmed text is a male honorific with two name tokens;
    the script's version never throws. *)
Theorem parseSalutation_versions_agree (v : value) :
  (∀ s, v = VStr s → male_with_two_names (trim s) = false) →
  (run (Script.parseSalutation v)).1 = Return (Immoscout.parseSalutation v).
Proof.
  intros Hv.
  destruct v as [| |b|n|s|l|fields];
    try (unfold Script.parseSalutation, Immoscout.parseSalutation; simpl;
         by rewrite ?orb_true_r).
  specialize (Hv s eq_refl).
  destruct s as [|c s]; [done|].
  rewrite (script_parseSalutation_string (c :: s)) by done.
  rewrite (parseSalutation_string (c :: s)) by done.
  destruct (str_match true malePattern 3 (trim (c :: s))) as [a|] eqn:Hmale.
  - apply malePattern_match_inv in Hmale
      as (h & ws & t1 & second & Hparts & Htrim & ->).
    rewrite Htrim, (male_with_two_names_salutation _ _ _ _ Hparts) in Hv.
    destruct second as [?|]; [done|].
    destruct (salutation_parts_not_nil _ _ _ _ _ (or_introl eq_refl) Hparts) as [Hh Ht1].
    unfold salutation_match, at_index, run. unfold_io.
    by destruct h, t1.
  - by destruct (str_match true femalePattern 3 (trim (c :: s))).
Qed.

Lemma parseSalutation_versions_agree_witness :
  (run (Script.parseSalutation (VStr (js "Herr Mustermann")))).1
  = Return (Immoscout.parseSalutation (VStr (js "Herr Mustermann"))).
Proof.
  apply (parseSalutation_versions_agree (VStr (js "Herr Mustermann"))).
  intros s [= <-]. reflexivity.
Defined.
